(** * oh-my-github generator: profile snapshot decoding and merging

    A shallow embedding of
    - [MetaField.OnDeserialized] and [Profile.updateMeta] of
      [generator/src/profile.ts], with what its [printProfile] computes, and
    - the actions of the [profile] and [init] commands
      ([CommandSetting.COMMAND_PROFILE] with its activity merge,
      [CommandSetting.COMMAND_INIT]),
    together with the properties of the snapshot merge stated about them.

    JavaScript values that are only inspected (raw JSON documents, activity
    entries) are trees of type [JsValue].  Objects that are mutated through
    references ([Profile], [MetaField] and their string arrays) live in an
    explicit store, so that aliasing between the previous and the new
    snapshot is visible. *)

From stdpp Require Import base option list strings gmap.
From Stdlib Require Import ZArith.

Local Open Scope string_scope.
Local Open Scope list_scope.

(** ** JavaScript values *)

Module Js.

(** A value as [JSON.parse] or a deserialised class instance presents it.
    [JsObject] lists the own enumerable properties in insertion order.
    Numbers in the documents are integers (versions, counters). *)
#[warnings="-register-all"] Inductive JsValue : Type :=
| JsUndefined
| JsNull
| JsBool (b : bool)
| JsNumber (n : Z)
| JsString (s : string)
| JsArray (items : list JsValue)
| JsObject (props : list (string * JsValue)).

Fixpoint JsValue_eq_dec (a b : JsValue) {struct a} : {a = b} + {a <> b}.
Proof.
  decide equality.
  - apply bool_dec.
  - apply Z.eq_dec.
  - apply String.string_dec.
  - apply (List.list_eq_dec JsValue_eq_dec).
  - refine (List.list_eq_dec _ props props0).
    intros [k v] [k' v'].
    destruct (String.string_dec k k') as [->|Hk]; [|right; congruence].
    destruct (JsValue_eq_dec v v') as [->|Hv]; [left; reflexivity|right; congruence].
Defined.

#[global] Instance JsValue_eq_decision : EqDecision JsValue := JsValue_eq_dec.

(** [o[key]] on the list of own properties. *)
Fixpoint lookupProp (props : list (string * JsValue)) (key : string) : JsValue :=
  match props with
  | [] => JsUndefined
  | (k, v) :: rest => if String.eqb k key then v else lookupProp rest key
  end.

(** [v.key]: reading a property of [null] or [undefined] throws a
    TypeError ([None]); primitives, and arrays for a non-index key, have no
    such property and give [undefined]. *)
Definition getProp (v : JsValue) (key : string) : option JsValue :=
  match v with
  | JsUndefined | JsNull => None
  | JsObject props => Some (lookupProp props key)
  | _ => Some JsUndefined
  end.

(** lodash [_.isEmpty]: [null], [undefined], numbers and booleans are empty;
    a string or array is empty when its length is 0; an object is empty when
    it has no own enumerable property. *)
Definition isEmpty (v : JsValue) : bool :=
  match v with
  | JsUndefined | JsNull | JsBool _ | JsNumber _ => true
  | JsString s => String.eqb s ""
  | JsArray items => match items with [] => true | _ => false end
  | JsObject props => match props with [] => true | _ => false end
  end.

(** [a === b] for the comparisons the code makes, against [null] and against
    a number. *)
Definition isNull (v : JsValue) : bool :=
  match v with JsNull => true | _ => false end.

Definition strictEqNumber (v : JsValue) (n : Z) : bool :=
  match v with JsNumber m => Z.eqb m n | _ => false end.

End Js.
Export Js.

(** ** Outcomes of a run *)

(** How a call can end other than by returning. *)
Inductive Failure : Type :=
| TypeError
| InvalidSchemaVersion (found : JsValue).

Inductive Outcome (A : Type) : Type :=
| Returns (a : A)
| Fails (f : Failure).
Arguments Returns {A} a.
Arguments Fails {A} f.

#[global] Instance Outcome_ret : MRet Outcome := λ A a, Returns a.
#[global] Instance Outcome_bind : MBind Outcome := λ A B k m,
  match m with
  | Returns a => k a
  | Fails f => Fails f
  end.

(** A property read that may throw. *)
Definition read (v : JsValue) (key : string) : Outcome JsValue :=
  match getProp v key with
  | Some x => Returns x
  | None => Fails TypeError
  end.

(** Modelled from the spec: [Util.reportMessageAndExit] of [util.ts], which
    is not among the sources.  It reports the message and ends the run with
    the schema-version error; nothing after the call is executed.  The
    message [Invalid _$meta.schema_version: <found>] is kept as the value
    that was found. *)
Definition reportMessageAndExit {A : Type} (found : JsValue) : Outcome A :=
  Fails (InvalidSchemaVersion found).

(** ** [MetaField] and its deserialisation hook *)

(** The fields of class [MetaField].  [Arr] is how the two string arrays are
    held: as a value while decoding, as a reference in the store. *)
Record MetaField (Arr : Type) : Type := mkMetaField {
  agent : JsValue;
  github_user : JsValue;
  github_repository : JsValue;
  ignored_repositories : Arr;
  schema_version : JsValue;
  schema_created_at : JsValue;
  schema_collected_ats : Arr
}.
Arguments mkMetaField {Arr}.
Arguments agent {Arr}.
Arguments github_user {Arr}.
Arguments github_repository {Arr}.
Arguments ignored_repositories {Arr}.
Arguments schema_version {Arr}.
Arguments schema_created_at {Arr}.
Arguments schema_collected_ats {Arr}.

Definition PROFILE_SCHEMA_VERSION : Z := 1.

Definition set_schema_version {Arr} (m : MetaField Arr) (v : JsValue) : MetaField Arr :=
  mkMetaField (agent m) (github_user m) (github_repository m)
    (ignored_repositories m) v (schema_created_at m) (schema_collected_ats m).

Definition set_schema_created_at {Arr} (m : MetaField Arr) (v : JsValue) : MetaField Arr :=
  mkMetaField (agent m) (github_user m) (github_repository m)
    (ignored_repositories m) (schema_version m) v (schema_collected_ats m).

Definition set_schema_collected_ats {Arr} (m : MetaField Arr) (v : Arr) : MetaField Arr :=
  mkMetaField (agent m) (github_user m) (github_repository m)
    (ignored_repositories m) (schema_version m) (schema_created_at m) v.

Definition set_ignored_repositories {Arr} (m : MetaField Arr) (v : Arr) : MetaField Arr :=
  mkMetaField (agent m) (github_user m) (github_repository m)
    v (schema_version m) (schema_created_at m) (schema_collected_ats m).

Section Decode.

(** [MetaField.CURRENT_DATE], the ISO timestamp taken once when the module
    is loaded. *)
Variable CURRENT_DATE : string.

(** [MetaField.OnDeserialized(instance, json)]: the hook assigns the three
    schema fields of [instance]; the updated instance is returned. *)
Definition OnDeserialized (instance : MetaField JsValue) (json : JsValue)
  : Outcome (MetaField JsValue) :=
  profSchemaVersion ← read json "schema_version";
  _ ← (if negb (isNull profSchemaVersion)
          && negb (strictEqNumber profSchemaVersion PROFILE_SCHEMA_VERSION)
       then reportMessageAndExit profSchemaVersion
       else mret tt);
  let profSchemaVersion :=
    if isEmpty profSchemaVersion then JsNumber PROFILE_SCHEMA_VERSION
    else profSchemaVersion in
  let instance := set_schema_version instance profSchemaVersion in
  created_at ← read json "schema_created_at";
  let created_at :=
    if isEmpty created_at then JsString CURRENT_DATE else created_at in
  let instance := set_schema_created_at instance created_at in
  collected_ats ← read json "schema_collected_ats";
  let collected_ats :=
    if isEmpty collected_ats then JsArray [JsString CURRENT_DATE]
    else collected_ats in
  let instance := set_schema_collected_ats instance collected_ats in
  mret instance.

End Decode.

(** ** The activity merge of the [profile] command *)

(** The [Set] of event ids seen so far, in the order of insertion.  A [Set]
    compares its keys by SameValueZero: strings, numbers, booleans, [null]
    and [undefined] by value, objects and arrays by reference.  [set_has]
    compares by value, so it is the membership of [Set] for keys that are
    not objects or arrays, as the ids of events are (strings, or [undefined]
    when missing); values here are trees and carry no reference.  The
    properties of the code that uses it are stated for such keys
    ([isPrimitive] below). *)
Abbreviation JsSet := (list JsValue) (only parsing).

Definition set_has (s : JsSet) (v : JsValue) : bool := bool_decide (v ∈ s).

Definition set_add (s : JsSet) (v : JsValue) : JsSet :=
  if set_has s v then s else s ++ [v].

(** The loop over [allActs] with its two accumulators [uniqEventIds] and
    [uniqActs]; [uniqActs.push(act)] appends. *)
Fixpoint uniqLoop (allActs : list JsValue) (uniqEventIds : JsSet)
    (uniqActs : list JsValue) : Outcome (list JsValue) :=
  match allActs with
  | [] => mret uniqActs
  | act :: rest =>
      id ← read act "event_id";
      if negb (set_has uniqEventIds id)
      then uniqLoop rest (set_add uniqEventIds id) (uniqActs ++ [act])
      else uniqLoop rest uniqEventIds uniqActs
  end.

(** The body of the [then] callback: [currentProf.activities] followed by
    [prevProf.activities], empty entries filtered out, then the loop. *)
Definition mergeActivities (currentActs prevActs : list JsValue)
  : Outcome (list JsValue) :=
  let allActs := filter (λ a, isEmpty a = false) (currentActs ++ prevActs) in
  uniqLoop allActs [] [].

(** *** The merge as the specification words it *)

(** The event id of an entry, [undefined] when it has none. *)
Definition eventIdOf (a : JsValue) : JsValue :=
  default JsUndefined (getProp a "event_id").

(** Keep the entries of [l] whose event id occurs neither among the entries
    [earlier] nor before them in [l]. *)
Fixpoint keepFirstFrom (earlier l : list JsValue) : list JsValue :=
  match l with
  | [] => []
  | a :: rest =>
      if bool_decide (eventIdOf a ∈ eventIdOf <$> earlier)
      then keepFirstFrom (earlier ++ [a]) rest
      else a :: keepFirstFrom (earlier ++ [a]) rest
  end.

(** Keep only the first occurrence of each event id, in the order of first
    occurrence. *)
Definition keepFirstOccurrences (l : list JsValue) : list JsValue :=
  keepFirstFrom [] l.

(** The entry that carries event id [id], if any. *)
Definition findById (id : JsValue) (l : list JsValue) : option JsValue :=
  List.find (λ a, bool_decide (eventIdOf a = id)) l.

(** ** The store of mutable objects *)

Abbreviation loc := positive.

(** The fields of class [Profile]; [_meta] is the field [_$meta], a
    reference to a [MetaField].  The activities array is only ever replaced
    as a whole, so the field holds its entries. *)
Record Profile : Type := mkProfile {
  _meta : loc;
  user : JsValue;
  languages : JsValue;
  repositories : JsValue;
  activities : list JsValue
}.

Definition set_meta (p : Profile) (l : loc) : Profile :=
  mkProfile l (user p) (languages p) (repositories p) (activities p).

Inductive Cell : Type :=
| StringArray (items : list string)
| MetaFieldObject (m : MetaField loc)
| ProfileObject (p : Profile).

Abbreviation Store := (gmap loc Cell).

(** Code that reads and writes the store and may throw. *)
Definition Run (A : Type) : Type := Store → Outcome (A * Store).

#[global] Instance Run_ret : MRet Run := λ A a σ, Returns (a, σ).
#[global] Instance Run_bind : MBind Run := λ A B k m σ,
  match m σ with
  | Returns (a, σ') => k a σ'
  | Fails f => Fails f
  end.

Definition alloc (c : Cell) : Run loc := λ σ,
  let l := fresh (dom σ) in Returns (l, <[l:=c]> σ).

Definition store (l : loc) (c : Cell) : Run unit := λ σ,
  Returns (tt, <[l:=c]> σ).

Definition getArray (l : loc) : Run (list string) := λ σ,
  match σ !! l with
  | Some (StringArray items) => Returns (items, σ)
  | _ => Fails TypeError
  end.

Definition getMeta (l : loc) : Run (MetaField loc) := λ σ,
  match σ !! l with
  | Some (MetaFieldObject m) => Returns (m, σ)
  | _ => Fails TypeError
  end.

Definition getProfile (l : loc) : Run Profile := λ σ,
  match σ !! l with
  | Some (ProfileObject p) => Returns (p, σ)
  | _ => Fails TypeError
  end.

(** [array.push(x)] *)
Definition push (array : loc) (x : string) : Run unit :=
  items ← getArray array;
  store array (StringArray (items ++ [x])).

(** Modelled from the spec: [Util.copyObject] of [util.ts], which is not
    among the sources.  The specification has the merge copy the previous
    meta and produce a new snapshot from immutable inputs, so the copy is a
    new object that shares nothing with its argument: the two arrays are
    copied as well. *)
Definition copyObject (object : loc) : Run loc :=
  m ← getMeta object;
  ignored ← getArray (ignored_repositories m);
  collected ← getArray (schema_collected_ats m);
  ignored' ← alloc (StringArray ignored);
  collected' ← alloc (StringArray collected);
  alloc (MetaFieldObject
           (set_schema_collected_ats (set_ignored_repositories m ignored') collected')).

(** lodash [_.union]: the values of the arrays in order, each kept at its
    first occurrence ([baseUniq] over the flattened arguments). *)
Fixpoint baseUniq (array result : list string) : list string :=
  match array with
  | [] => result
  | value :: rest =>
      if bool_decide (value ∈ result) then baseUniq rest result
      else baseUniq rest (result ++ [value])
  end.

Definition union (a b : list string) : list string := baseUniq (a ++ b) [].

Section ProfileOps.

Variable CURRENT_DATE : string.

(** [Profile.updateMeta(currentProfile, prevMeta)] *)
Definition updateMeta (currentProfile prevMeta : loc) : Run loc :=
  cur ← getProfile currentProfile;
  let currentMeta := _meta cur in
  meta ← copyObject prevMeta;
  (* 1. update schema_collected_ats *)
  m ← getMeta meta;
  _ ← push (schema_collected_ats m) CURRENT_DATE;
  (* 2. update ignored_repositories *)
  cm ← getMeta currentMeta;
  a ← getArray (ignored_repositories cm);
  pm ← getMeta prevMeta;
  b ← getArray (ignored_repositories pm);
  u ← alloc (StringArray (union a b));
  m ← getMeta meta;
  _ ← store meta (MetaFieldObject (set_ignored_repositories m u));
  cur ← getProfile currentProfile;
  _ ← store currentProfile (ProfileObject (set_meta cur meta));
  mret currentProfile.

End ProfileOps.

(** *** Reading a snapshot out of the store *)

(** The contents of the string array at [l]. *)
Definition arrayAt (σ : Store) (l : loc) : option (list string) :=
  match σ !! l with
  | Some (StringArray items) => Some items
  | _ => None
  end.

(** The [MetaField] at [l]. *)
Definition metaAt (σ : Store) (l : loc) : option (MetaField loc) :=
  match σ !! l with
  | Some (MetaFieldObject m) => Some m
  | _ => None
  end.

Definition profileAt (σ : Store) (l : loc) : option Profile :=
  match σ !! l with
  | Some (ProfileObject p) => Some p
  | _ => None
  end.

(** The [MetaField] at [l] with both arrays read through. *)
Definition metaValueAt (σ : Store) (l : loc) : option (MetaField (list string)) :=
  m ← metaAt σ l;
  ignored ← arrayAt σ (ignored_repositories m);
  collected ← arrayAt σ (schema_collected_ats m);
  Some (mkMetaField (agent m) (github_user m) (github_repository m) ignored
          (schema_version m) (schema_created_at m) collected).

(** The [_$meta] of the profile at [l], read through. *)
Definition profileMetaAt (σ : Store) (l : loc) : option (MetaField (list string)) :=
  p ← profileAt σ l;
  metaValueAt σ (_meta p).

(** ** Vocabulary of the properties *)

(** The raw field of a document, [undefined] when the key is absent. *)
Definition rawField (json : JsValue) (key : string) : JsValue :=
  default JsUndefined (getProp json key).

(** [null] or [undefined]. *)
Definition isNullish (v : JsValue) : bool :=
  match v with JsUndefined | JsNull => true | _ => false end.

(** The values that [===] and the keys of a [Set] or [Map] compare by value:
    all but objects and arrays. *)
Definition isPrimitive (v : JsValue) : bool :=
  match v with JsArray _ | JsObject _ => false | _ => true end.

(** The condition of the version check in [OnDeserialized], negated: the
    values it lets through. *)
Definition passesGate (v : JsValue) : bool :=
  isNull v || strictEqNumber v PROFILE_SCHEMA_VERSION.

(** ** Sample documents, events and a sample store *)

Module Sample.

Definition date : string := "2016-03-01T09:00:00.000Z".

(** [new MetaField()] as a value. *)
Definition blank : MetaField JsValue :=
  mkMetaField JsUndefined JsUndefined JsUndefined (JsArray [])
    (JsNumber PROFILE_SCHEMA_VERSION) (JsString date) (JsArray [JsString date]).

(** A [_$meta] document with [schema_version: 2]. *)
Definition metaVersion2 : JsValue :=
  JsObject [("agent", JsString "oh-my-github");
            ("github_user", JsString "octocat");
            ("schema_version", JsNumber 2)].

(** A [_$meta] document without the key [schema_version]. *)
Definition metaWithoutVersion : JsValue :=
  JsObject [("agent", JsString "oh-my-github");
            ("github_user", JsString "octocat");
            ("ignored_repositories", JsArray [])].

(** A [_$meta] document whose schema fields are all [null]. *)
Definition metaNulls : JsValue :=
  JsObject [("agent", JsString "oh-my-github");
            ("github_user", JsString "octocat");
            ("schema_version", JsNull);
            ("schema_created_at", JsNull);
            ("schema_collected_ats", JsNull)].

Definition event (id type : string) : JsValue :=
  JsObject [("event_id", JsString id); ("type", JsString type)].

(** An event without the property [event_id]. *)
Definition eventWithoutId (type : string) : JsValue :=
  JsObject [("type", JsString type)].

Definition freshActs : list JsValue :=
  [event "2" "IssuesEvent"; event "1" "PushEvent"].

Definition prevActs : list JsValue :=
  [event "1" "PushEvent (stored)"].

(** A store with a current profile at 1 (its meta at 2 asks to ignore
    [repoB]) and a previous profile at 8 (its meta at 5). *)
Definition store0 : Store :=
  {[ 1%positive := ProfileObject (mkProfile 2 JsUndefined JsUndefined JsUndefined []);
     2%positive := MetaFieldObject
                     (mkMetaField JsUndefined JsUndefined JsUndefined 3%positive
                        (JsNumber 1) (JsString date) 4%positive);
     3%positive := StringArray ["repoB"];
     4%positive := StringArray [date];
     5%positive := MetaFieldObject
                     (mkMetaField (JsString "oh-my-github") (JsString "octocat")
                        (JsString "octocat/resume") 6%positive (JsNumber 1)
                        (JsString "2020-01-01T00:00:00Z") 7%positive);
     6%positive := StringArray ["repoA"];
     7%positive := StringArray ["2020-01-01T00:00:00Z"];
     8%positive := ProfileObject
                     (mkProfile 5 JsUndefined JsUndefined JsUndefined prevActs) ]}.

Definition currentMeta0 : MetaField (list string) :=
  mkMetaField JsUndefined JsUndefined JsUndefined ["repoB"]
    (JsNumber 1) (JsString date) [date].

Definition prevMeta0 : MetaField (list string) :=
  mkMetaField (JsString "oh-my-github") (JsString "octocat")
    (JsString "octocat/resume") ["repoA"] (JsNumber 1)
    (JsString "2020-01-01T00:00:00Z") ["2020-01-01T00:00:00Z"].

(** The same store after the requested list was emptied. *)
Definition store1 : Store := <[3%positive := StringArray []]> store0.

Definition currentMeta1 : MetaField (list string) :=
  mkMetaField JsUndefined JsUndefined JsUndefined []
    (JsNumber 1) (JsString date) [date].

End Sample.

(** ** What [printProfile] computes *)

(** Classes [Language], [Repository] and [RepositorySummary] belong to
    [github_model.ts], which is not among the sources; the records have the
    fields that [printProfile] reads and writes.  Counters are integers.
    The code adds them as doubles, the definitions below as integers: the
    two agree as long as no sum leaves the integers that a double holds
    exactly, those up to [MAX_SAFE_INTEGER].  The properties of the sums are
    stated for counters that are not negative and totals within that
    bound. *)
Module Language.
Record t : Type := mk { name : string; line : Z }.
End Language.

Module Repository.
Record t : Type := mk {
  name : string;
  watchers_count : Z;
  stargazers_count : Z;
  forks_count : Z
}.
End Repository.

Module RepositorySummary.
Record t : Type := mk {
  repository_names : list string;
  repository_count : Z;
  watchers_count : Z;
  stargazers_count : Z;
  forks_count : Z
}.
End RepositorySummary.

(** The callback of [langs.forEach] in [printProfile] of the command file,
    on the [Map] from language name to lines.  [langMap.get] finds the entry
    that the line before has made sure of. *)
Definition langMapStep (langMap : gmap string Z) (lang : Language.t)
  : gmap string Z :=
  let langMap :=
    if bool_decide (is_Some (langMap !! Language.name lang)) then langMap
    else <[Language.name lang := 0%Z]> langMap in
  let currentLine := default 0%Z (langMap !! Language.name lang) in
  <[Language.name lang := (Language.line lang + currentLine)%Z]> langMap.

Definition langMapOf (langs : list Language.t) : gmap string Z :=
  foldl langMapStep ∅ langs.

(** The callback of [repos.reduce], the same in both [printProfile]s. *)
Definition addRepository (sum : RepositorySummary.t) (repo : Repository.t)
  : RepositorySummary.t :=
  RepositorySummary.mk
    (RepositorySummary.repository_names sum ++ [Repository.name repo])
    (RepositorySummary.repository_count sum + 1)
    (RepositorySummary.watchers_count sum + Repository.watchers_count repo)
    (RepositorySummary.stargazers_count sum + Repository.stargazers_count repo)
    (RepositorySummary.forks_count sum + Repository.forks_count repo).

(** [repos.reduce(..., repoSummary)] from the summary that
    [new RepositorySummary()] gives. *)
Definition summarize (repoSummary : RepositorySummary.t)
    (repos : list Repository.t) : RepositorySummary.t :=
  foldl addRepository repoSummary repos.

(** *** The language set of [printProfile] in [profile.ts] *)

(** [v.length] of a value that is not [null] or [undefined]. *)
Definition lengthOf (v : JsValue) : JsValue :=
  match v with
  | JsArray items => JsNumber (Z.of_nat (List.length items))
  | JsString s => JsNumber (Z.of_nat (String.length s))
  | JsObject props => lookupProp props "length"
  | _ => JsUndefined
  end.

(** [languages.map(lang => lang.name)] *)
Fixpoint namesOf (languages : list JsValue) : Outcome (list JsValue) :=
  match languages with
  | [] => mret []
  | lang :: rest =>
      name ← read lang "name";
      names ← namesOf rest;
      mret (name :: names)
  end.

(** The callback of [langInfos.reduce]; [acc] is the [Set].  Calling [map]
    on a value that is not an array throws. *)
Definition langSetStep (acc : JsSet) (langInfo : JsValue) : Outcome JsSet :=
  languages ← read langInfo "languages";
  if isEmpty languages || strictEqNumber (lengthOf languages) 0 then mret acc
  else
    match languages with
    | JsArray items =>
        names ← namesOf items;
        mret (foldl set_add acc names)
    | _ => Fails TypeError
    end.

Fixpoint langSetLoop (langInfos : list JsValue) (acc : JsSet) : Outcome JsSet :=
  match langInfos with
  | [] => mret acc
  | langInfo :: rest =>
      acc ← langSetStep acc langInfo;
      langSetLoop rest acc
  end.

(** [langInfos.reduce(..., new Set<string>())]; its size is printed as the
    language count. *)
Definition langSetOf (langInfos : list JsValue) : Outcome JsSet :=
  langSetLoop langInfos [].

(** *** The new activities of [printProfile] in [profile.ts] *)

(** [acts.map(act => act.event_id)] *)
Fixpoint eventIdsOf (acts : list JsValue) : Outcome (list JsValue) :=
  match acts with
  | [] => mret []
  | act :: rest =>
      id ← read act "event_id";
      ids ← eventIdsOf rest;
      mret (id :: ids)
  end.

(** [currentActs.filter(act => !prevActIds.has(act.event_id))] *)
Fixpoint filterNew (prevActIds : JsSet) (currentActs : list JsValue)
  : Outcome (list JsValue) :=
  match currentActs with
  | [] => mret []
  | act :: rest =>
      id ← read act "event_id";
      news ← filterNew prevActIds rest;
      mret (if negb (set_has prevActIds id) then act :: news else news)
  end.

(** [newActs] of [printProfile]. *)
Definition newActivities (prevActs currentActs : list JsValue)
  : Outcome (list JsValue) :=
  ids ← eventIdsOf prevActs;
  let prevActIds := foldl set_add [] ids in
  filterNew prevActIds currentActs.

(** The condition under which the details of the new activities are
    printed: [prevActs.length !== currentActs.length]. *)
Definition printsNewActivityDetails (prevActs currentActs : list JsValue) : bool :=
  negb (Nat.eqb (List.length prevActs) (List.length currentActs)).

(** *** Vocabulary for the summaries *)

(** The lines of the languages called [name]. *)
Definition linesOf (name : string) (langs : list Language.t) : Z :=
  foldr Z.add 0%Z
    (Language.line <$> filter (λ lang, Language.name lang = name) langs).

Definition sumZ (l : list Z) : Z := foldr Z.add 0%Z l.

(** [Number.MAX_SAFE_INTEGER], [2^53 - 1]: sums of integers that are not
    negative are exact in doubles up to it. *)
Definition MAX_SAFE_INTEGER : Z := 9007199254740991.

(** A count that a double holds exactly. *)
Definition safeCount (n : Z) : Prop := (0 ≤ n ≤ MAX_SAFE_INTEGER)%Z.

(** The counters of a repository are counts. *)
Definition countsOf (repo : Repository.t) : Prop :=
  (0 ≤ Repository.watchers_count repo)%Z ∧
  (0 ≤ Repository.stargazers_count repo)%Z ∧
  (0 ≤ Repository.forks_count repo)%Z.

(** Adding the repositories [repos] to the summary [sum] stays within the
    exact integers: the counters at the start and of every repository are
    not negative and the four totals are within the bound. *)
Definition safeTotals (sum : RepositorySummary.t) (repos : list Repository.t)
  : Prop :=
  (0 ≤ RepositorySummary.repository_count sum)%Z ∧
  (0 ≤ RepositorySummary.watchers_count sum)%Z ∧
  (0 ≤ RepositorySummary.stargazers_count sum)%Z ∧
  (0 ≤ RepositorySummary.forks_count sum)%Z ∧
  Forall countsOf repos ∧
  (RepositorySummary.repository_count sum + Z.of_nat (List.length repos)
     ≤ MAX_SAFE_INTEGER)%Z ∧
  (RepositorySummary.watchers_count sum
     + sumZ (Repository.watchers_count <$> repos) ≤ MAX_SAFE_INTEGER)%Z ∧
  (RepositorySummary.stargazers_count sum
     + sumZ (Repository.stargazers_count <$> repos) ≤ MAX_SAFE_INTEGER)%Z ∧
  (RepositorySummary.forks_count sum
     + sumZ (Repository.forks_count <$> repos) ≤ MAX_SAFE_INTEGER)%Z.

(** A language that has a name to put into the [Set]: it is not [null] or
    [undefined], and its [name] is not an object or an array. *)
Definition namedLanguage (lang : JsValue) : Prop :=
  isNullish lang = false ∧ isPrimitive (rawField lang "name") = true.

(** A language record that [printProfile] can process: an object whose
    [languages] is absent or empty, or an array of named languages. *)
Definition readableLangInfo (langInfo : JsValue) : Prop :=
  isNullish langInfo = false ∧
  (isEmpty (rawField langInfo "languages")
     || strictEqNumber (lengthOf (rawField langInfo "languages")) 0 = true
   ∨ ∃ items, rawField langInfo "languages" = JsArray items ∧
              Forall namedLanguage items).

(** ** The [profile] and [init] commands *)

Module Command.

(** A promise that has settled; a rejection carries what a fetch reported or
    what was thrown. *)
Inductive Reason : Type :=
| FetchError (err : JsValue)
| Thrown (f : Failure).

Inductive Promise (A : Type) : Type :=
| Resolved (a : A)
| Rejected (reason : Reason).
Arguments Resolved {A} a.
Arguments Rejected {A} reason.

#[global] Instance Promise_ret : MRet Promise := λ A a, Resolved a.
#[global] Instance Promise_bind : MBind Promise := λ A B k m,
  match m with
  | Resolved a => k a
  | Rejected r => Rejected r
  end.

(** The flags of the command line; commander leaves a flag that was not
    given [undefined], which is false in a condition. *)
Record ProfileOptions : Type := mkOptions {
  language : bool;
  repository : bool;
  activity : bool
}.

(** The fields of the [Profile] that the command assigns. *)
Record Profile : Type := mkProfile {
  user : JsValue;
  languages : list Language.t;
  repositories : list Repository.t;
  activities : list JsValue
}.

Definition set_activities (p : Profile) (acts : list JsValue) : Profile :=
  mkProfile (user p) (languages p) (repositories p) acts.

(** What [printProfile] writes to the console, colours left out.
    [pretty.render] belongs to the library prettyjson; a rendered value is
    kept as the value. *)
Inductive Line : Type :=
| Heading (text : string)
| RenderedUser (user : JsValue)
| RenderedLanguageSummary (login : JsValue) (langMap : gmap string Z)
| RenderedRepositorySummary (summary : RepositorySummary.t)
| ActivityCount (count : nat).

Section Run.

(** [GithubUtil] belongs to [github_util.ts], which is not among the
    sources: its four fetches are parameters, and so is the summary that
    [new RepositorySummary()] starts from. *)
Variable getGithubUser : string → string → Promise JsValue.
Variable getUserRepositories : string → string → Promise (list Repository.t).
Variable getUserLanguages : string → string → Promise (list Language.t).
Variable getUserActivities : string → string → Promise (list JsValue).
Variable newRepositorySummary : RepositorySummary.t.

(** [printProfile(user, langs, repos, acts)] of the command file.  [_.isEmpty]
    of an array is true when it has no element. *)
Definition printProfile (user : JsValue) (langs : list Language.t)
    (repos : list Repository.t) (acts : list JsValue) : Outcome (list Line) :=
  let out := [Heading "[USER]"; RenderedUser user; Heading "[LANGUAGE]"] in
  out ← (match langs with
         | [] => mret out
         | _ =>
             let langMap := langMapOf langs in
             login ← read user "login";
             mret (out ++ [RenderedLanguageSummary login langMap])
         end);
  let out := out ++ [Heading "[REPOSITORY]"] in
  let out :=
    match repos with
    | [] => out
    | _ => out ++ [RenderedRepositorySummary (summarize newRepositorySummary repos)]
    end in
  let out := out ++ [Heading "[ACTIVITY]"] in
  let out :=
    match acts with
    | [] => out
    | _ => out ++ [ActivityCount (List.length acts)]
    end in
  mret out.

(** [createProfile(token, user, options)] of the command file: an exception
    of [printProfile] rejects the promise. *)
Definition createProfile (token user : string) (options : ProfileOptions)
  : Promise Profile :=
  githubUser ← getGithubUser token user;
  repos ← (if repository options then getUserRepositories token user
           else Resolved []);
  langs ← (if language options then getUserLanguages token user
           else Resolved []);
  acts ← (if activity options then getUserActivities token user
          else Resolved []);
  match printProfile githubUser langs repos acts with
  | Fails f => Rejected (Thrown f)
  | Returns _ => Resolved (mkProfile githubUser langs repos acts)
  end.

(** How the action of the [profile] command ends: [overwriteFile] is called
    with a profile, or the [catch] branch reports the reason and the file
    stays as it is. *)
Inductive Ending : Type :=
| Overwrites (profile : Profile)
| LeavesFile (reason : Reason).

(** The action of [COMMAND_PROFILE] once the previous profile is
    deserialised; [prevActs] is [prevProf.activities]. *)
Definition COMMAND_PROFILE (token user : string) (options : ProfileOptions)
    (prevActs : list JsValue) : Ending :=
  match createProfile token user options with
  | Rejected reason => LeavesFile reason
  | Resolved currentProf =>
      match mergeActivities (activities currentProf) prevActs with
      | Fails f => LeavesFile (Thrown f)
      | Returns uniqActs => Overwrites (set_activities currentProf uniqActs)
      end
  end.

End Run.

(** *** [init] *)

(** The files of the working directory, each with the value whose JSON text
    it holds. *)
Abbreviation FileSystem := (gmap string JsValue).

(** [props[key] = v] on the list of own properties: an existing property
    keeps its place, a new one comes last. *)
Fixpoint setProp (props : list (string * JsValue)) (key : string) (v : JsValue)
  : list (string * JsValue) :=
  match props with
  | [] => [(key, v)]
  | (k, x) :: rest =>
      if String.eqb k key then (k, v) :: rest else (k, x) :: setProp rest key v
  end.

(** [target.key = v] in strict mode, for a key that is not an array index:
    [null], [undefined] and primitives throw; a property given to an array
    is not part of its JSON text. *)
Definition assignProp (target : JsValue) (key : string) (v : JsValue)
  : Outcome JsValue :=
  match target with
  | JsObject props => mret (JsObject (setProp props key v))
  | JsArray items => mret (JsArray items)
  | _ => Fails TypeError
  end.

(** [template._$meta.repository = repo]: the object [template._$meta] is
    changed inside [template]. *)
Definition setRepository (template : JsValue) (repo : string) : Outcome JsValue :=
  meta ← read template "_$meta";
  meta ← assignProp meta "repository" (JsString repo);
  match template with
  | JsObject props => mret (JsObject (setProp props "_$meta" meta))
  | _ => mret template
  end.

(** [fse.writeJsonSync(path, json, {flag: "wx"})]: fails when the file
    exists. *)
Definition writeFileIfNotExist (path : string) (json : JsValue) (fs : FileSystem)
  : option FileSystem :=
  match fs !! path with
  | Some _ => None
  | None => Some (<[path := json]> fs)
  end.

(** [fse.writeJsonSync(path, json, {flag: "w+"})] *)
Definition overwriteFile (path : string) (json : JsValue) (fs : FileSystem)
  : FileSystem :=
  <[path := json]> fs.

(** The action of [COMMAND_INIT].  [template] is the copy
    [JSON.parse(JSON.stringify(PROFILE_TEMPLATE_JSON))] of the template
    file, which is not among the sources; [confPath] is [getProfilePath()].
    The assignment is outside the [try], the write inside. *)
Definition COMMAND_INIT (template : JsValue) (confPath : string) (repo : string)
    (fs : FileSystem) : Outcome FileSystem :=
  template ← setRepository template repo;
  match writeFileIfNotExist confPath template fs with
  | Some fs' => mret fs'
  | None => mret fs
  end.

End Command.

(** ** More samples *)

Module SampleMore.

Definition langInfos : list JsValue :=
  [JsObject [("repository_name", JsString "resume");
             ("languages", JsArray [JsObject [("name", JsString "TypeScript");
                                              ("line", JsNumber 1200)];
                                    JsObject [("name", JsString "CSS");
                                              ("line", JsNumber 80)]])];
   JsObject [("repository_name", JsString "notes")];
   JsObject [("repository_name", JsString "site");
             ("languages", JsArray [JsObject [("name", JsString "CSS");
                                              ("line", JsNumber 300)]])]].

Definition storedActs : list JsValue :=
  [Sample.event "1" "PushEvent"].

Definition mergedActs : list JsValue :=
  [Sample.event "2" "IssuesEvent"; Sample.event "1" "PushEvent"].

Definition template : JsValue :=
  JsObject [("_$meta", JsObject [("agent", JsString "oh-my-github");
                                 ("schema_version", JsNumber 1)]);
            ("activities", JsArray [])].

Definition options : Command.ProfileOptions := Command.mkOptions false false true.

Definition octocat : JsValue := JsObject [("login", JsString "octocat")].

(** Fetches for a run with only the activity flag: the two that are not
    asked for would fail. *)
Definition getGithubUser (token user : string) : Command.Promise JsValue :=
  Command.Resolved octocat.

Definition getUserRepositories (token user : string)
  : Command.Promise (list Repository.t) :=
  Command.Rejected (Command.FetchError (JsString "rate limit")).

Definition getUserLanguages (token user : string)
  : Command.Promise (list Language.t) :=
  Command.Rejected (Command.FetchError (JsString "rate limit")).

Definition getUserActivities (token user : string)
  : Command.Promise (list JsValue) :=
  Command.Resolved Sample.freshActs.

Definition emptySummary : RepositorySummary.t := RepositorySummary.mk [] 0 0 0 0.

Definition langs : list Language.t :=
  [Language.mk "TypeScript" 1200; Language.mk "CSS" 80; Language.mk "CSS" 300].

Definition repos : list Repository.t :=
  [Repository.mk "resume" 3 12 2; Repository.mk "notes" 0 1 0].

Definition written : Command.Profile :=
  Command.mkProfile octocat [] [] Sample.freshActs.

Definition confPath : string := "oh-my-github.json".

(** [template] after [init octocat/resume]. *)
Definition initialised : JsValue :=
  JsObject [("_$meta", JsObject [("agent", JsString "oh-my-github");
                                 ("schema_version", JsNumber 1);
                                 ("repository", JsString "octocat/resume")]);
            ("activities", JsArray [])].

End SampleMore.

(** * Properties *)

(** ** Deserialising a [MetaField] *)

Section DecodeFacts.

Variable CURRENT_DATE : string.

Lemma getProp_rawField json key v :
  getProp json key = Some v → rawField json key = v.
Proof. unfold rawField. intros ->. reflexivity. Qed.

Lemma getProp_total json key key' v :
  getProp json key = Some v → getProp json key' = Some (rawField json key').
Proof. destruct json; simpl; intros H; try discriminate; reflexivity. Qed.

Lemma passesGate_cases v :
  passesGate v = true → v = JsNull ∨ v = JsNumber PROFILE_SCHEMA_VERSION.
Proof.
  destruct v; simpl; try discriminate; auto.
  intros H. apply Z.eqb_eq in H. subst. auto.
Qed.

Lemma passesGate_isEmpty v : passesGate v = true → isEmpty v = true.
Proof. intros H. destruct (passesGate_cases v H) as [-> | ->]; reflexivity. Qed.

(** What a run of the hook that returns has done. *)
Lemma OnDeserialized_returns instance json m :
  OnDeserialized CURRENT_DATE instance json = Returns m →
  passesGate (rawField json "schema_version") = true ∧
  m = mkMetaField (agent instance) (github_user instance)
        (github_repository instance) (ignored_repositories instance)
        (JsNumber PROFILE_SCHEMA_VERSION)
        (if isEmpty (rawField json "schema_created_at")
         then JsString CURRENT_DATE else rawField json "schema_created_at")
        (if isEmpty (rawField json "schema_collected_ats")
         then JsArray [JsString CURRENT_DATE]
         else rawField json "schema_collected_ats").
Proof.
  unfold OnDeserialized, read.
  destruct (getProp json "schema_version") as [v|] eqn:Hv; [|discriminate].
  rewrite (getProp_total _ _ "schema_created_at" _ Hv).
  rewrite (getProp_total _ _ "schema_collected_ats" _ Hv).
  rewrite (getProp_rawField _ _ _ Hv).
  destruct (passesGate v) eqn:Hg.
  - destruct (passesGate_cases v Hg) as [-> | ->]; simpl; intros [= <-]; auto.
  - unfold passesGate in Hg. apply orb_false_elim in Hg as [Hn Hs].
    simpl. rewrite Hn, Hs. simpl. discriminate.
Qed.

(** Conversely the hook returns whenever the document is an object-like
    value whose version passes the gate. *)
Lemma OnDeserialized_accepts instance json v :
  getProp json "schema_version" = Some v →
  passesGate v = true →
  ∃ m, OnDeserialized CURRENT_DATE instance json = Returns m.
Proof.
  intros Hv Hg. unfold OnDeserialized, read. rewrite Hv.
  rewrite (getProp_total _ _ "schema_created_at" _ Hv).
  rewrite (getProp_total _ _ "schema_collected_ats" _ Hv).
  destruct (passesGate_cases v Hg) as [-> | ->]; simpl; eauto.
Qed.

(** Any other version value ends the run with the schema-version error. *)
Lemma OnDeserialized_rejects instance json v :
  getProp json "schema_version" = Some v →
  passesGate v = false →
  OnDeserialized CURRENT_DATE instance json = Fails (InvalidSchemaVersion v).
Proof.
  intros Hv Hg. unfold OnDeserialized, read. rewrite Hv.
  unfold passesGate in Hg. apply orb_false_elim in Hg as [Hn Hs].
  simpl. rewrite Hn, Hs. reflexivity.
Qed.

End DecodeFacts.

(** ** The activity merge *)

Section MergeFacts.

Implicit Types (a act : JsValue) (l earlier seen acc : list JsValue).

(** An entry that passed the filter can be asked for its event id. *)
Lemma read_event_id act :
  isEmpty act = false → read act "event_id" = Returns (eventIdOf act).
Proof. destruct act; simpl; try discriminate; reflexivity. Qed.

Lemma set_has_elem_of seen id : set_has seen id = true ↔ id ∈ seen.
Proof. unfold set_has. apply bool_decide_eq_true. Qed.

(** The loop computes [keepFirstFrom] as long as the ids in the [Set] are
    the ids of the entries already passed. *)
Lemma uniqLoop_keepFirstFrom l : ∀ seen acc earlier,
  Forall (λ a, isEmpty a = false) l →
  (∀ id, id ∈ seen ↔ id ∈ eventIdOf <$> earlier) →
  uniqLoop l seen acc = Returns (acc ++ keepFirstFrom earlier l).
Proof.
  induction l as [|a rest IH]; intros seen acc earlier Hne Hseen; simpl.
  - rewrite app_nil_r. reflexivity.
  - apply Forall_cons in Hne as [Ha Hrest].
    rewrite (read_event_id a Ha). simpl.
    destruct (set_has seen (eventIdOf a)) eqn:Hhas; simpl.
    + apply set_has_elem_of in Hhas.
      rewrite bool_decide_eq_true_2 by (apply Hseen; exact Hhas).
      apply IH; [exact Hrest|].
      intros id. rewrite fmap_app, elem_of_app, <- Hseen. simpl.
      rewrite list_elem_of_singleton. split; [auto|].
      intros [H | ->]; [exact H | exact Hhas].
    + assert (eventIdOf a ∉ seen) as Hnot.
      { intros Hin. apply set_has_elem_of in Hin. congruence. }
      rewrite bool_decide_eq_false_2 by (rewrite <- Hseen; exact Hnot).
      unfold set_add. rewrite Hhas.
      rewrite (IH _ _ (earlier ++ [a]) Hrest).
      * rewrite <- app_assoc. reflexivity.
      * intros id. rewrite fmap_app, !elem_of_app, <- Hseen. reflexivity.
Qed.

Lemma Forall_filter_nonEmpty l :
  Forall (λ a, isEmpty a = false) (filter (λ a, isEmpty a = false) l).
Proof. apply Forall_forall. intros a Ha. apply list_elem_of_filter in Ha. tauto. Qed.

Lemma filter_nonEmpty_id l :
  Forall (λ a, isEmpty a = false) l → filter (λ a, isEmpty a = false) l = l.
Proof.
  induction 1 as [|a l Ha _ IH]; [reflexivity|].
  rewrite filter_cons_True by exact Ha. rewrite IH. reflexivity.
Qed.

(** The merge always returns: it keeps the first occurrences among the
    entries that are not empty. *)
Lemma mergeActivities_returns (A B : list JsValue) :
  mergeActivities A B =
  Returns (keepFirstOccurrences (filter (λ a, isEmpty a = false) (A ++ B))).
Proof.
  unfold mergeActivities, keepFirstOccurrences.
  rewrite (uniqLoop_keepFirstFrom _ [] [] []); [reflexivity| |].
  - apply Forall_filter_nonEmpty.
  - intros id. simpl. reflexivity.
Qed.

(** *** Facts about [keepFirstFrom] *)

Lemma keepFirstFrom_elem earlier l a :
  a ∈ keepFirstFrom earlier l → a ∈ l ∧ eventIdOf a ∉ eventIdOf <$> earlier.
Proof.
  revert earlier. induction l as [|x rest IH]; intros earlier; simpl.
  - intros H. apply elem_of_nil in H. contradiction.
  - case_bool_decide as Hx.
    + intros H. apply IH in H as [Hin Hnot]. split; [apply elem_of_cons; auto|].
      rewrite fmap_app, elem_of_app in Hnot. tauto.
    + intros H. apply elem_of_cons in H as [-> | H].
      * split; [apply elem_of_cons; auto | exact Hx].
      * apply IH in H as [Hin Hnot]. split; [apply elem_of_cons; auto|].
        rewrite fmap_app, elem_of_app in Hnot. tauto.
Qed.

Lemma keepFirstFrom_NoDup earlier l :
  NoDup (eventIdOf <$> keepFirstFrom earlier l).
Proof.
  revert earlier. induction l as [|x rest IH]; intros earlier; simpl.
  - constructor.
  - case_bool_decide as Hx; [apply IH|].
    rewrite fmap_cons. apply NoDup_cons. split; [|apply IH].
    intros Hin. apply list_elem_of_fmap in Hin as (y & Hy & Hin).
    apply keepFirstFrom_elem in Hin as [_ Hnot]. apply Hnot.
    rewrite fmap_app, elem_of_app. right. rewrite <- Hy. simpl.
    apply list_elem_of_singleton. reflexivity.
Qed.

Lemma keepFirstFrom_covers earlier l a :
  a ∈ l →
  eventIdOf a ∈ eventIdOf <$> earlier ∨
  eventIdOf a ∈ eventIdOf <$> keepFirstFrom earlier l.
Proof.
  revert earlier. induction l as [|x rest IH]; intros earlier Hin; simpl.
  - apply elem_of_nil in Hin. contradiction.
  - apply elem_of_cons in Hin as [-> | Hin].
    + case_bool_decide as Hx; [left; exact Hx|].
      right. rewrite fmap_cons. apply elem_of_cons. auto.
    + destruct (IH (earlier ++ [x]) Hin) as [H | H].
      * rewrite fmap_app, elem_of_app in H. destruct H as [H | H]; [left; exact H|].
        simpl in H. apply list_elem_of_singleton in H.
        case_bool_decide as Hx; [left; rewrite H; exact Hx|].
        right. rewrite fmap_cons, H. apply elem_of_cons. auto.
      * case_bool_decide as Hx; [right; exact H|].
        right. rewrite fmap_cons. apply elem_of_cons. auto.
Qed.

Lemma keepFirstFrom_app earlier l1 l2 :
  keepFirstFrom earlier (l1 ++ l2) =
  keepFirstFrom earlier l1 ++ keepFirstFrom (earlier ++ l1) l2.
Proof.
  revert earlier. induction l1 as [|x rest IH]; intros earlier; simpl.
  - rewrite app_nil_r. reflexivity.
  - rewrite IH, <- app_assoc. simpl. case_bool_decide; reflexivity.
Qed.

(** The kept entries are a subsequence: their order is the order they had. *)
Lemma keepFirstFrom_sublist earlier l :
  keepFirstFrom earlier l `sublist_of` l.
Proof.
  revert earlier. induction l as [|x rest IH]; intros earlier; simpl.
  - constructor.
  - case_bool_decide; [apply sublist_cons | apply sublist_skip]; apply IH.
Qed.

(** Entries whose ids all occurred earlier are all dropped. *)
Lemma keepFirstFrom_seen earlier l :
  (∀ a, a ∈ l → eventIdOf a ∈ eventIdOf <$> earlier) →
  keepFirstFrom earlier l = [].
Proof.
  revert earlier. induction l as [|x rest IH]; intros earlier Hall; simpl.
  - reflexivity.
  - rewrite bool_decide_eq_true_2 by (apply Hall, elem_of_cons; auto).
    apply IH. intros a Ha. rewrite fmap_app, elem_of_app. left.
    apply Hall, elem_of_cons. auto.
Qed.

(** Entries with pairwise distinct ids, none of which occurred earlier, are
    all kept. *)
Lemma keepFirstFrom_distinct earlier l :
  NoDup (eventIdOf <$> l) →
  (∀ a, a ∈ l → eventIdOf a ∉ eventIdOf <$> earlier) →
  keepFirstFrom earlier l = l.
Proof.
  revert earlier. induction l as [|x rest IH]; intros earlier Hnd Hnew; simpl.
  - reflexivity.
  - rewrite fmap_cons in Hnd. apply NoDup_cons in Hnd as [Hx Hnd].
    rewrite bool_decide_eq_false_2 by (apply Hnew, elem_of_cons; auto).
    f_equal. apply IH; [exact Hnd|].
    intros a Ha. rewrite fmap_app, elem_of_app. intros [H | H].
    + revert H. apply Hnew, elem_of_cons. auto.
    + simpl in H. apply list_elem_of_singleton in H.
      apply Hx. rewrite <- H. apply list_elem_of_fmap_2. exact Ha.
Qed.

(** *** Facts about [findById] *)

Lemma findById_cons id a l :
  findById id (a :: l) =
  if bool_decide (eventIdOf a = id) then Some a else findById id l.
Proof. reflexivity. Qed.

Lemma findById_Some id l a :
  findById id l = Some a → a ∈ l ∧ eventIdOf a = id.
Proof.
  induction l as [|x rest IH]; [discriminate|].
  rewrite findById_cons. case_bool_decide as Hx.
  - intros [= <-]. split; [apply elem_of_cons; auto | exact Hx].
  - intros H. apply IH in H as [Hin Hid]. split; [apply elem_of_cons; auto | exact Hid].
Qed.

Lemma findById_elem a l :
  a ∈ l → ∃ a', findById (eventIdOf a) l = Some a'.
Proof.
  induction l as [|x rest IH]; intros Hin.
  - apply elem_of_nil in Hin. contradiction.
  - rewrite findById_cons. case_bool_decide as Hx; [eauto|].
    apply elem_of_cons in Hin as [-> | Hin]; [congruence | auto].
Qed.

Lemma findById_app_l id l1 l2 a :
  findById id l1 = Some a → findById id (l1 ++ l2) = Some a.
Proof.
  induction l1 as [|x rest IH]; [discriminate|].
  simpl app. rewrite !findById_cons. case_bool_decide; auto.
Qed.

(** Looking an id up after deduplication finds the entry that a lookup in
    the original sequence finds: the first one. *)
Lemma findById_keepFirstFrom id earlier l :
  findById id (keepFirstFrom earlier l) =
  if bool_decide (id ∈ eventIdOf <$> earlier) then None else findById id l.
Proof.
  revert earlier. induction l as [|x rest IH]; intros earlier; simpl keepFirstFrom.
  - case_bool_decide; reflexivity.
  - assert ((id ∈ eventIdOf <$> earlier ++ [x]) ↔
            (id ∈ eventIdOf <$> earlier) ∨ id = eventIdOf x) as Happ.
    { rewrite fmap_app, elem_of_app. simpl.
      rewrite list_elem_of_singleton. reflexivity. }
    case_bool_decide as Hx.
    + rewrite IH, findById_cons.
      repeat case_bool_decide; try reflexivity; exfalso; intuition congruence.
    + rewrite !findById_cons, IH.
      repeat case_bool_decide; try reflexivity; exfalso; intuition congruence.
Qed.

Lemma findById_keepFirstOccurrences id l :
  findById id (keepFirstOccurrences l) = findById id l.
Proof.
  unfold keepFirstOccurrences. rewrite findById_keepFirstFrom.
  rewrite bool_decide_eq_false_2; [reflexivity|].
  simpl. apply not_elem_of_nil.
Qed.

(** Among entries with pairwise distinct ids an id names one entry. *)
Lemma NoDup_eventId_inj l a b :
  NoDup (eventIdOf <$> l) → a ∈ l → b ∈ l → eventIdOf a = eventIdOf b → a = b.
Proof.
  induction l as [|x rest IH]; intros Hnd Ha Hb Hid.
  - apply elem_of_nil in Ha. contradiction.
  - rewrite fmap_cons in Hnd. apply NoDup_cons in Hnd as [Hx Hnd].
    apply elem_of_cons in Ha as [-> | Ha]; apply elem_of_cons in Hb as [-> | Hb].
    + reflexivity.
    + exfalso. apply Hx. rewrite Hid. apply list_elem_of_fmap_2. exact Hb.
    + exfalso. apply Hx. rewrite <- Hid. apply list_elem_of_fmap_2. exact Ha.
    + auto.
Qed.

End MergeFacts.

(** ** The store *)

Section StoreFacts.

Variable CURRENT_DATE : string.

Implicit Types (σ : Store) (l : loc).

Lemma run_bind {A B} (m : Run A) (k : A → Run B) σ a σ' :
  m σ = Returns (a, σ') → (x ← m; k x) σ = k a σ'.
Proof. intros H. unfold mbind, Run_bind. rewrite H. reflexivity. Qed.

Lemma getArray_run σ l items :
  σ !! l = Some (StringArray items) → getArray l σ = Returns (items, σ).
Proof. unfold getArray. intros ->. reflexivity. Qed.

Lemma getMeta_run σ l m :
  σ !! l = Some (MetaFieldObject m) → getMeta l σ = Returns (m, σ).
Proof. unfold getMeta. intros ->. reflexivity. Qed.

Lemma getProfile_run σ l p :
  σ !! l = Some (ProfileObject p) → getProfile l σ = Returns (p, σ).
Proof. unfold getProfile. intros ->. reflexivity. Qed.

Lemma fresh_lookup σ : σ !! fresh (dom σ) = None.
Proof. apply not_elem_of_dom, is_fresh. Qed.

Lemma lookup_insert_old σ l l' c c' :
  σ !! l' = None → σ !! l = Some c → <[l':=c']> σ !! l = Some c.
Proof.
  intros Hnone Hsome. rewrite lookup_insert_ne; [exact Hsome|].
  intros ->. congruence.
Qed.

Lemma copyObject_run σ object m ignored collected :
  σ !! object = Some (MetaFieldObject m) →
  σ !! ignored_repositories m = Some (StringArray ignored) →
  σ !! schema_collected_ats m = Some (StringArray collected) →
  ∃ li lc lm,
    σ !! li = None ∧ σ !! lc = None ∧ σ !! lm = None ∧
    li ≠ lc ∧ li ≠ lm ∧ lc ≠ lm ∧
    copyObject object σ =
    Returns (lm,
      <[lm := MetaFieldObject
                (set_schema_collected_ats (set_ignored_repositories m li) lc)]>
        (<[lc := StringArray collected]> (<[li := StringArray ignored]> σ))).
Proof.
  intros Hm Hi Hc. unfold copyObject.
  rewrite (run_bind _ _ _ _ _ (getMeta_run _ _ _ Hm)).
  rewrite (run_bind _ _ _ _ _ (getArray_run _ _ _ Hi)).
  rewrite (run_bind _ _ _ _ _ (getArray_run _ _ _ Hc)).
  set (li := fresh (dom σ)).
  set (σ1 := <[li := StringArray ignored]> σ).
  set (lc := fresh (dom σ1)).
  set (σ2 := <[lc := StringArray collected]> σ1).
  set (lm := fresh (dom σ2)).
  assert (σ !! li = None) as Hli by apply fresh_lookup.
  assert (σ1 !! lc = None) as Hlc by apply fresh_lookup.
  assert (σ2 !! lm = None) as Hlm by apply fresh_lookup.
  assert (li ≠ lc) as Hne1.
  { intros E. unfold σ1 in Hlc. rewrite <- E, lookup_insert_eq in Hlc. discriminate. }
  assert (lc ≠ lm) as Hne3.
  { intros E. unfold σ2 in Hlm. rewrite <- E, lookup_insert_eq in Hlm. discriminate. }
  assert (li ≠ lm) as Hne2.
  { intros E. unfold σ2, σ1 in Hlm.
    rewrite lookup_insert_ne, <- E, lookup_insert_eq in Hlm by congruence.
    discriminate. }
  exists li, lc, lm. repeat split; try assumption.
  - unfold σ1 in Hlc. rewrite lookup_insert_ne in Hlc by exact Hne1. exact Hlc.
  - unfold σ2, σ1 in Hlm. rewrite !lookup_insert_ne in Hlm by congruence. exact Hlm.
Qed.

Lemma updateMeta_run σ currentProfile prevMeta cur cm requested pm prevIgnored prevCollected :
  σ !! currentProfile = Some (ProfileObject cur) →
  σ !! _meta cur = Some (MetaFieldObject cm) →
  σ !! ignored_repositories cm = Some (StringArray requested) →
  σ !! prevMeta = Some (MetaFieldObject pm) →
  σ !! ignored_repositories pm = Some (StringArray prevIgnored) →
  σ !! schema_collected_ats pm = Some (StringArray prevCollected) →
  ∃ σ' lm lu lc,
    updateMeta CURRENT_DATE currentProfile prevMeta σ = Returns (currentProfile, σ') ∧
    σ' !! currentProfile = Some (ProfileObject (set_meta cur lm)) ∧
    σ' !! lm = Some (MetaFieldObject
                       (mkMetaField (agent pm) (github_user pm) (github_repository pm)
                          lu (schema_version pm) (schema_created_at pm) lc)) ∧
    σ' !! lu = Some (StringArray (union requested prevIgnored)) ∧
    σ' !! lc = Some (StringArray (prevCollected ++ [CURRENT_DATE])) ∧
    (∀ l, is_Some (σ !! l) → l ≠ currentProfile → σ' !! l = σ !! l).
Proof.
  intros Hcur Hcm Hreq Hpm Hpi Hpc. unfold updateMeta.
  rewrite (run_bind _ _ _ _ _ (getProfile_run _ _ _ Hcur)).
  destruct (copyObject_run σ prevMeta pm prevIgnored prevCollected Hpm Hpi Hpc)
    as (li & lc & lm & Hli & Hlc & Hlm & Hn1 & Hn2 & Hn3 & Hcopy).
  rewrite (run_bind _ _ _ _ _ Hcopy). clear Hcopy.
  set (m1 := set_schema_collected_ats (set_ignored_repositories pm li) lc).
  set (σ3 := <[lm := MetaFieldObject m1]>
               (<[lc := StringArray prevCollected]> (<[li := StringArray prevIgnored]> σ))).
  assert (∀ l c, σ !! l = Some c → σ3 !! l = Some c) as Hold3.
  { intros l c H. unfold σ3. repeat apply lookup_insert_old; try assumption.
    - rewrite !lookup_insert_ne by congruence. exact Hlm.
    - rewrite lookup_insert_ne by congruence. exact Hlc. }
  assert (σ3 !! lm = Some (MetaFieldObject m1)) as H3m by apply lookup_insert_eq.
  assert (σ3 !! lc = Some (StringArray prevCollected)) as H3c.
  { unfold σ3. rewrite lookup_insert_ne by congruence. apply lookup_insert_eq. }
  rewrite (run_bind _ _ _ _ _ (getMeta_run _ _ _ H3m)).
  unfold push.
  rewrite (run_bind _ _ _ _ _ (run_bind _ _ _ _ _ (getArray_run _ _ _ H3c))).
  change (schema_collected_ats m1) with lc.
  set (σ4 := <[lc := StringArray (prevCollected ++ [CURRENT_DATE])]> σ3).
  assert (∀ l c, σ !! l = Some c → σ4 !! l = Some c) as Hold4.
  { intros l c H. unfold σ4. rewrite lookup_insert_ne by congruence. auto. }
  assert (σ4 !! lm = Some (MetaFieldObject m1)) as H4m.
  { unfold σ4. rewrite lookup_insert_ne by congruence. exact H3m. }
  rewrite (run_bind _ _ _ _ _ (getMeta_run _ _ _ (Hold4 _ _ Hcm))).
  rewrite (run_bind _ _ _ _ _ (getArray_run _ _ _ (Hold4 _ _ Hreq))).
  rewrite (run_bind _ _ _ _ _ (getMeta_run _ _ _ (Hold4 _ _ Hpm))).
  rewrite (run_bind _ _ _ _ _ (getArray_run _ _ _ (Hold4 _ _ Hpi))).
  set (lu := fresh (dom σ4)).
  assert (σ4 !! lu = None) as Hlu by apply fresh_lookup.
  set (σ5 := <[lu := StringArray (union requested prevIgnored)]> σ4).
  assert (alloc (StringArray (union requested prevIgnored)) σ4 = Returns (lu, σ5))
    as Halloc by reflexivity.
  rewrite (run_bind _ _ _ _ _ Halloc). clear Halloc.
  assert (lu ≠ lm) as Hn4 by congruence.
  assert (lu ≠ lc) as Hn5.
  { intros E. rewrite E in Hlu. unfold σ4 in Hlu.
    rewrite lookup_insert_eq in Hlu. discriminate. }
  assert (σ5 !! lm = Some (MetaFieldObject m1)) as H5m.
  { unfold σ5. rewrite lookup_insert_ne by congruence. exact H4m. }
  rewrite (run_bind _ _ _ _ _ (getMeta_run _ _ _ H5m)).
  set (m2 := set_ignored_repositories m1 lu).
  set (σ6 := <[lm := MetaFieldObject m2]> σ5).
  assert (store lm (MetaFieldObject m2) σ5 = Returns (tt, σ6)) as Hst by reflexivity.
  rewrite (run_bind _ _ _ _ _ Hst). clear Hst.
  assert (∀ l c, σ !! l = Some c → σ6 !! l = Some c) as Hold6.
  { intros l c H. unfold σ6, σ5.
    rewrite !lookup_insert_ne by (intros <-; specialize (Hold4 _ _ H); congruence).
    auto. }
  rewrite (run_bind _ _ _ _ _ (getProfile_run _ _ _ (Hold6 _ _ Hcur))).
  set (σ7 := <[currentProfile := ProfileObject (set_meta cur lm)]> σ6).
  assert (store currentProfile (ProfileObject (set_meta cur lm)) σ6 = Returns (tt, σ7))
    as Hst by reflexivity.
  rewrite (run_bind _ _ _ _ _ Hst). clear Hst.
  assert (currentProfile ≠ lm) as Hc1 by congruence.
  assert (currentProfile ≠ lu) as Hc2.
  { intros E. specialize (Hold4 _ _ Hcur). congruence. }
  assert (currentProfile ≠ lc) as Hc3 by congruence.
  exists σ7, lm, lu, lc. split; [reflexivity|].
  split; [apply lookup_insert_eq|].
  split.
  { unfold σ7, σ6. rewrite lookup_insert_ne by congruence. apply lookup_insert_eq. }
  split.
  { unfold σ7, σ6, σ5. rewrite !lookup_insert_ne by congruence. apply lookup_insert_eq. }
  split.
  { unfold σ7, σ6, σ5, σ4. rewrite !lookup_insert_ne by congruence.
    apply lookup_insert_eq. }
  intros l [c Hl] Hne. unfold σ7. rewrite lookup_insert_ne by congruence.
  rewrite Hl. apply Hold6. exact Hl.
Qed.

(** *** Reading snapshots back *)

Lemma metaValueAt_inv σ l v :
  metaValueAt σ l = Some v →
  ∃ m, σ !! l = Some (MetaFieldObject m) ∧
       σ !! ignored_repositories m = Some (StringArray (ignored_repositories v)) ∧
       σ !! schema_collected_ats m = Some (StringArray (schema_collected_ats v)) ∧
       v = mkMetaField (agent m) (github_user m) (github_repository m)
             (ignored_repositories v) (schema_version m) (schema_created_at m)
             (schema_collected_ats v).
Proof.
  unfold metaValueAt, metaAt, arrayAt.
  destruct (σ !! l) as [[| m |]|]; simpl; try discriminate.
  destruct (σ !! ignored_repositories m) as [[ign | |]|] eqn:Hi; simpl;
    try discriminate.
  destruct (σ !! schema_collected_ats m) as [[col | |]|] eqn:Hc; simpl;
    try discriminate.
  intros [= <-]. exists m. simpl. auto.
Qed.

Lemma metaValueAt_intro σ l m ign col :
  σ !! l = Some (MetaFieldObject m) →
  σ !! ignored_repositories m = Some (StringArray ign) →
  σ !! schema_collected_ats m = Some (StringArray col) →
  metaValueAt σ l =
  Some (mkMetaField (agent m) (github_user m) (github_repository m) ign
          (schema_version m) (schema_created_at m) col).
Proof.
  intros Hm Hi Hc. unfold metaValueAt, metaAt, arrayAt.
  rewrite Hm. simpl. rewrite Hi. simpl. rewrite Hc. reflexivity.
Qed.

Lemma profileMetaAt_inv σ l v :
  profileMetaAt σ l = Some v →
  ∃ p, σ !! l = Some (ProfileObject p) ∧ metaValueAt σ (_meta p) = Some v.
Proof.
  unfold profileMetaAt, profileAt.
  destruct (σ !! l) as [[| | p]|]; simpl; try discriminate. eauto.
Qed.

Lemma profileMetaAt_intro σ l p :
  σ !! l = Some (ProfileObject p) → profileMetaAt σ l = metaValueAt σ (_meta p).
Proof. intros H. unfold profileMetaAt, profileAt. rewrite H. reflexivity. Qed.

(** [updateMeta] on snapshots: the profile receives the previous meta with
    one more collection date and the united ignore list, and every other
    object of the store stays as it was. *)
Lemma updateMeta_snapshot σ currentProfile prevMeta current previous :
  profileMetaAt σ currentProfile = Some current →
  metaValueAt σ prevMeta = Some previous →
  ∃ σ',
    updateMeta CURRENT_DATE currentProfile prevMeta σ = Returns (currentProfile, σ') ∧
    profileMetaAt σ' currentProfile =
      Some (mkMetaField (agent previous) (github_user previous)
              (github_repository previous)
              (union (ignored_repositories current) (ignored_repositories previous))
              (schema_version previous) (schema_created_at previous)
              (schema_collected_ats previous ++ [CURRENT_DATE])) ∧
    (∀ l, is_Some (σ !! l) → l ≠ currentProfile → σ' !! l = σ !! l).
Proof.
  intros Hcur Hprev.
  apply profileMetaAt_inv in Hcur as (cur & Hcur & Hcm).
  apply metaValueAt_inv in Hcm as (cm & Hcm & Hreq & _ & _).
  apply metaValueAt_inv in Hprev as (pm & Hpm & Hpi & Hpc & Hv).
  destruct (updateMeta_run σ currentProfile prevMeta cur cm _ pm _ _
              Hcur Hcm Hreq Hpm Hpi Hpc)
    as (σ' & lm & lu & lc & Hrun & H1 & H2 & H3 & H4 & Hframe).
  exists σ'. split; [exact Hrun|]. split; [|exact Hframe].
  rewrite (profileMetaAt_intro _ _ _ H1). simpl.
  rewrite (metaValueAt_intro _ _ _ _ _ H2 H3 H4). simpl.
  rewrite Hv. reflexivity.
Qed.

(** *** lodash [union] *)

Lemma baseUniq_elem array : ∀ result x,
  x ∈ baseUniq array result ↔ x ∈ result ∨ x ∈ array.
Proof.
  induction array as [|v rest IH]; intros result x; simpl.
  - rewrite elem_of_nil. tauto.
  - case_bool_decide as Hv; rewrite IH, elem_of_cons.
    + split; [tauto|]. intros [H | [-> | H]]; auto.
    + rewrite elem_of_app, list_elem_of_singleton. tauto.
Qed.

Lemma baseUniq_NoDup array : ∀ result,
  NoDup result → NoDup (baseUniq array result).
Proof.
  induction array as [|v rest IH]; intros result Hnd; simpl; [exact Hnd|].
  case_bool_decide as Hv; apply IH; [exact Hnd|].
  apply NoDup_app. split; [exact Hnd|]. split; [|apply NoDup_singleton].
  intros x Hx Hx'. apply list_elem_of_singleton in Hx'. congruence.
Qed.

Lemma union_elem a b x : x ∈ union a b ↔ x ∈ a ∨ x ∈ b.
Proof.
  unfold union. rewrite baseUniq_elem, elem_of_app, elem_of_nil. tauto.
Qed.

Lemma union_NoDup a b : NoDup (union a b).
Proof. apply baseUniq_NoDup. constructor. Qed.

End StoreFacts.

(** Whatever the merge returns has no empty entry and no event id twice. *)
Lemma mergeActivities_normalised (A B merged : list JsValue) :
  mergeActivities A B = Returns merged →
  Forall (λ a, isEmpty a = false) merged ∧ NoDup (eventIdOf <$> merged).
Proof.
  rewrite mergeActivities_returns. intros [= <-]. split.
  - apply Forall_forall. intros a Ha.
    apply keepFirstFrom_elem in Ha as [Ha _].
    apply list_elem_of_filter in Ha. tauto.
  - apply keepFirstFrom_NoDup.
Qed.

(** A sequence without empty entries and without a repeated event id is
    returned unchanged when merged with itself. *)
Lemma mergeActivities_self (acts : list JsValue) :
  Forall (λ a, isEmpty a = false) acts →
  NoDup (eventIdOf <$> acts) →
  mergeActivities acts acts = Returns acts.
Proof.
  intros Hne Hnd.
  rewrite mergeActivities_returns. f_equal.
  rewrite filter_app, (filter_nonEmpty_id _ Hne).
  unfold keepFirstOccurrences. rewrite keepFirstFrom_app. simpl.
  rewrite (keepFirstFrom_distinct [] acts Hnd).
  - rewrite keepFirstFrom_seen; [apply app_nil_r|].
    intros a Ha. apply list_elem_of_fmap_2. exact Ha.
  - intros a _ H. simpl in H. apply elem_of_nil in H. exact H.
Qed.

(** In particular every sequence the merge has returned is a fixed point of
    merging with itself. *)
Lemma mergeActivities_self_merged (A B merged : list JsValue) :
  mergeActivities A B = Returns merged →
  mergeActivities merged merged = Returns merged.
Proof.
  intros H. apply mergeActivities_normalised in H as [Hne Hnd].
  apply mergeActivities_self; assumption.
Qed.

(** The scenario of the specification: the stored event 1 arrives again
    together with the new event 2; the fresh copies are kept, fresh first. *)
Example mergeActivities_scenario :
  mergeActivities Sample.freshActs Sample.prevActs = Returns Sample.freshActs.
Proof. reflexivity. Qed.

(** Empty slots are skipped before the loop reads any [event_id]. *)
Example mergeActivities_skips_empty_slots :
  mergeActivities [JsNull; Sample.event "1" "PushEvent"; JsObject []] [JsUndefined]
  = Returns [Sample.event "1" "PushEvent"].
Proof. reflexivity. Qed.

(** * The claims *)

(** ** Activities *)

(** Claim C1.  For sequences [A] (fresh) and [B] (previous) of events, with
    event ids that are not objects or arrays, the merged activities are [A]
    followed by [B] with only the first occurrence of each event id kept, in
    the order of first occurrence: the output is a subsequence of [A ++ B]
    without a repeated id in which every id names the entry it names first
    in [A ++ B].  Hence for an event id present in both [A] and [B], the one
    entry of the output with that id is the copy found in [A]. *)
Theorem merge_keeps_first_occurrences (A B : list JsValue) :
  Forall (λ a, isEmpty a = false) A →
  Forall (λ a, isEmpty a = false) B →
  Forall (λ a, isPrimitive (eventIdOf a) = true) A →
  Forall (λ a, isPrimitive (eventIdOf a) = true) B →
  ∃ merged,
    mergeActivities A B = Returns merged ∧
    merged = keepFirstOccurrences (A ++ B) ∧
    merged `sublist_of` A ++ B ∧
    NoDup (eventIdOf <$> merged) ∧
    (∀ id, findById id merged = findById id (A ++ B)) ∧
    ∀ a b, a ∈ A → b ∈ B → eventIdOf a = eventIdOf b →
      ∃ a', findById (eventIdOf a) A = Some a' ∧
            a' ∈ merged ∧
            ∀ m, m ∈ merged → eventIdOf m = eventIdOf a → m = a'.
Proof.
  intros HA HB _ _.
  exists (keepFirstOccurrences (A ++ B)).
  assert (Forall (λ a, isEmpty a = false) (A ++ B)) as HAB
    by (apply Forall_app; auto).
  split.
  { rewrite mergeActivities_returns, (filter_nonEmpty_id _ HAB). reflexivity. }
  split; [reflexivity|].
  split; [apply keepFirstFrom_sublist|].
  split; [apply keepFirstFrom_NoDup|].
  split; [intros id; apply findById_keepFirstOccurrences|].
  intros a b Ha _ _.
  destruct (findById_elem a A Ha) as [a' Hfind].
  exists a'. split; [exact Hfind|].
  assert (findById (eventIdOf a) (keepFirstOccurrences (A ++ B)) = Some a') as Hm.
  { rewrite findById_keepFirstOccurrences. apply findById_app_l, Hfind. }
  apply findById_Some in Hm as [Hin Hid].
  split; [exact Hin|].
  intros m Hmin Hmid.
  apply (NoDup_eventId_inj (keepFirstOccurrences (A ++ B))); try assumption.
  - apply keepFirstFrom_NoDup.
  - congruence.
Qed.

Lemma merge_keeps_first_occurrences_witness :
  Forall (λ a, isEmpty a = false) Sample.freshActs ∧
  Forall (λ a, isEmpty a = false) Sample.prevActs ∧
  Forall (λ a, isPrimitive (eventIdOf a) = true) Sample.freshActs ∧
  Forall (λ a, isPrimitive (eventIdOf a) = true) Sample.prevActs ∧
  ∃ merged,
    mergeActivities Sample.freshActs Sample.prevActs = Returns merged ∧
    merged = keepFirstOccurrences (Sample.freshActs ++ Sample.prevActs) ∧
    merged `sublist_of` Sample.freshActs ++ Sample.prevActs ∧
    NoDup (eventIdOf <$> merged) ∧
    (∀ id, findById id merged =
           findById id (Sample.freshActs ++ Sample.prevActs)) ∧
    ∀ a b, a ∈ Sample.freshActs → b ∈ Sample.prevActs →
      eventIdOf a = eventIdOf b →
      ∃ a', findById (eventIdOf a) Sample.freshActs = Some a' ∧
            a' ∈ merged ∧
            ∀ m, m ∈ merged → eventIdOf m = eventIdOf a → m = a'.
Proof.
  split; [repeat constructor|]. split; [repeat constructor|].
  split; [repeat constructor|]. split; [repeat constructor|].
  apply (merge_keeps_first_occurrences Sample.freshActs Sample.prevActs);
    repeat constructor.
Defined.

(** Claim C3, as the code has it.  For entries whose event ids are not
    objects or arrays, the merge drops the entries that are themselves empty
    ([null], [undefined], an object without own property) and nothing else:
    no empty entry is in the output, and an event id of the other entries,
    an absent or empty one included, is treated like any id: it is in the
    output once, carried by the first entry that has it. *)
Theorem merge_drops_empty_entries (A B : list JsValue) :
  Forall (λ a, isPrimitive (eventIdOf a) = true) A →
  Forall (λ a, isPrimitive (eventIdOf a) = true) B →
  ∃ merged,
    mergeActivities A B = Returns merged ∧
    Forall (λ a, isEmpty a = false) merged ∧
    (∀ a, a ∈ A ++ B → isEmpty a = false →
          eventIdOf a ∈ eventIdOf <$> merged) ∧
    NoDup (eventIdOf <$> merged) ∧
    ∀ id, findById id merged =
          findById id (filter (λ a, isEmpty a = false) (A ++ B)).
Proof.
  intros _ _.
  exists (keepFirstOccurrences (filter (λ a, isEmpty a = false) (A ++ B))).
  pose proof (mergeActivities_returns A B) as Hrun.
  destruct (mergeActivities_normalised _ _ _ Hrun) as [Hne Hnd].
  split; [exact Hrun|]. split; [exact Hne|].
  split; [|split; [exact Hnd | intros id; apply findById_keepFirstOccurrences]].
  intros a Ha Hna.
  destruct (keepFirstFrom_covers [] (filter (λ a, isEmpty a = false) (A ++ B)) a)
    as [H | H].
  - apply list_elem_of_filter. auto.
  - simpl in H. apply elem_of_nil in H. contradiction.
  - exact H.
Qed.

Lemma merge_drops_empty_entries_witness :
  let A := [JsNull; Sample.event "" "PushEvent"; JsObject []] in
  let B := [Sample.eventWithoutId "WatchEvent"; JsUndefined;
            Sample.event "" "PushEvent (stored)"] in
  Forall (λ a, isPrimitive (eventIdOf a) = true) A ∧
  Forall (λ a, isPrimitive (eventIdOf a) = true) B ∧
  ∃ merged,
    mergeActivities A B = Returns merged ∧
    Forall (λ a, isEmpty a = false) merged ∧
    (∀ a, a ∈ A ++ B → isEmpty a = false →
          eventIdOf a ∈ eventIdOf <$> merged) ∧
    NoDup (eventIdOf <$> merged) ∧
    ∀ id, findById id merged =
          findById id (filter (λ a, isEmpty a = false) (A ++ B)).
Proof.
  intros A B.
  split; [repeat constructor|]. split; [repeat constructor|].
  apply (merge_drops_empty_entries A B); repeat constructor.
Defined.

(** Claim C3, as stated, fails: an event whose [event_id] is the empty
    string and an event without [event_id] both stay in the output. *)
Lemma merge_keeps_entries_without_event_id :
  mergeActivities [Sample.event "" "PushEvent"] [Sample.eventWithoutId "WatchEvent"]
    = Returns [Sample.event "" "PushEvent"; Sample.eventWithoutId "WatchEvent"] ∧
  eventIdOf (Sample.event "" "PushEvent") = JsString "" ∧
  eventIdOf (Sample.eventWithoutId "WatchEvent") = JsUndefined ∧
  ¬ (∀ A B merged a,
       mergeActivities A B = Returns merged → a ∈ merged →
       isEmpty (eventIdOf a) = false).
Proof.
  split; [reflexivity|]. split; [reflexivity|]. split; [reflexivity|].
  intros H.
  specialize (H [Sample.event "" "PushEvent"] [Sample.eventWithoutId "WatchEvent"]
                _ (Sample.event "" "PushEvent") eq_refl).
  discriminate H. apply elem_of_cons. left. reflexivity.
Qed.

(** Claim C7.  Merging a deduplicated activity sequence, with event ids
    that are not objects or arrays, with an identical copy of itself returns
    that sequence, and with an empty requested ignore list [updateMeta]
    makes [schema_collected_ats] one entry longer and leaves the set of
    ignored repositories as it was. *)
Theorem remerge_is_idempotent (CURRENT_DATE : string) (acts : list JsValue)
    (σ : Store) (currentProfile prevMeta : loc)
    (current previous : MetaField (list string)) :
  Forall (λ a, isEmpty a = false) acts →
  Forall (λ a, isPrimitive (eventIdOf a) = true) acts →
  NoDup (eventIdOf <$> acts) →
  profileMetaAt σ currentProfile = Some current →
  ignored_repositories current = [] →
  metaValueAt σ prevMeta = Some previous →
  mergeActivities acts acts = Returns acts ∧
  ∃ σ' newMeta,
    updateMeta CURRENT_DATE currentProfile prevMeta σ = Returns (currentProfile, σ') ∧
    profileMetaAt σ' currentProfile = Some newMeta ∧
    length (schema_collected_ats newMeta) = S (length (schema_collected_ats previous)) ∧
    ∀ r, r ∈ ignored_repositories newMeta ↔ r ∈ ignored_repositories previous.
Proof.
  intros Hne _ Hnd Hcur Hreq Hprev. split.
  - apply mergeActivities_self; assumption.
  - destruct (updateMeta_snapshot CURRENT_DATE σ currentProfile prevMeta _ _ Hcur Hprev)
      as (σ' & Hrun & Hmeta & _).
    eexists σ', _. split; [exact Hrun|]. split; [exact Hmeta|]. simpl. split.
    + rewrite length_app. simpl. lia.
    + intros r. rewrite union_elem, Hreq, elem_of_nil. tauto.
Qed.

Lemma remerge_is_idempotent_witness :
  Forall (λ a, isEmpty a = false) Sample.freshActs ∧
  Forall (λ a, isPrimitive (eventIdOf a) = true) Sample.freshActs ∧
  NoDup (eventIdOf <$> Sample.freshActs) ∧
  profileMetaAt Sample.store1 1%positive = Some Sample.currentMeta1 ∧
  ignored_repositories Sample.currentMeta1 = [] ∧
  metaValueAt Sample.store1 5%positive = Some Sample.prevMeta0 ∧
  mergeActivities Sample.freshActs Sample.freshActs = Returns Sample.freshActs ∧
  ∃ σ' newMeta,
    updateMeta Sample.date 1%positive 5%positive Sample.store1 = Returns (1%positive, σ') ∧
    profileMetaAt σ' 1%positive = Some newMeta ∧
    length (schema_collected_ats newMeta) =
      S (length (schema_collected_ats Sample.prevMeta0)) ∧
    ∀ r, r ∈ ignored_repositories newMeta ↔ r ∈ ignored_repositories Sample.prevMeta0.
Proof.
  assert (NoDup (eventIdOf <$> Sample.freshActs)) as Hnd.
  { refine (bool_decide_unpack _ _). vm_compute. exact I. }
  split; [repeat constructor|]. split; [repeat constructor|].
  split; [exact Hnd|].
  split; [vm_compute; reflexivity|]. split; [reflexivity|].
  split; [vm_compute; reflexivity|].
  apply (remerge_is_idempotent Sample.date Sample.freshActs Sample.store1
           1%positive 5%positive Sample.currentMeta1 Sample.prevMeta0).
  - repeat constructor.
  - repeat constructor.
  - exact Hnd.
  - vm_compute; reflexivity.
  - reflexivity.
  - vm_compute; reflexivity.
Defined.

(** ** Deserialisation *)

(** Claim C2.  A document with [schema_version: 2] ends with the
    schema-version error, as stated; a document without the key
    [schema_version] ends with the same error instead of being given the
    supported version, because [null !== undefined] holds; only a
    [schema_version] of [null] is defaulted. *)
Theorem schema_version_gate_on_samples :
  OnDeserialized Sample.date Sample.blank Sample.metaVersion2
    = Fails (InvalidSchemaVersion (JsNumber 2)) ∧
  OnDeserialized Sample.date Sample.blank Sample.metaWithoutVersion
    = Fails (InvalidSchemaVersion JsUndefined) ∧
  ∃ m, OnDeserialized Sample.date Sample.blank Sample.metaNulls = Returns m ∧
       schema_version m = JsNumber PROFILE_SCHEMA_VERSION.
Proof.
  split; [reflexivity|]. split; [reflexivity|].
  eexists. split; reflexivity.
Qed.

(** Claim C4.  Decoding does not fill an absent [schema_version] with its
    default: for a document without the key, an empty one included, the run
    ends with the schema-version error and returns no [MetaField], although
    the absent value is empty for lodash and the two other schema fields,
    absent as well, would have been given their defaults. *)
Theorem absent_schema_version_is_not_defaulted (CURRENT_DATE : string)
    (instance : MetaField JsValue) :
  isEmpty (rawField Sample.metaWithoutVersion "schema_version") = true ∧
  isEmpty (rawField Sample.metaWithoutVersion "schema_created_at") = true ∧
  isEmpty (rawField Sample.metaWithoutVersion "schema_collected_ats") = true ∧
  OnDeserialized CURRENT_DATE instance Sample.metaWithoutVersion
    = Fails (InvalidSchemaVersion JsUndefined) ∧
  OnDeserialized CURRENT_DATE instance (JsObject [])
    = Fails (InvalidSchemaVersion JsUndefined).
Proof. repeat split; reflexivity. Qed.

(** Claim C10.  Every [MetaField] that [OnDeserialized] returns has
    [schema_version] equal to [PROFILE_SCHEMA_VERSION]. *)
Theorem decoded_schema_version_is_supported (CURRENT_DATE : string)
    (instance : MetaField JsValue) (json : JsValue) (m : MetaField JsValue) :
  OnDeserialized CURRENT_DATE instance json = Returns m →
  schema_version m = JsNumber PROFILE_SCHEMA_VERSION.
Proof.
  intros H. apply OnDeserialized_returns in H as [_ ->]. reflexivity.
Qed.

Lemma decoded_schema_version_is_supported_witness :
  OnDeserialized Sample.date Sample.blank
    (JsObject [("schema_version", JsNumber 1);
               ("schema_created_at", JsString "2015-12-24T10:00:00.000Z")]) =
    Returns (mkMetaField JsUndefined JsUndefined JsUndefined (JsArray [])
               (JsNumber 1) (JsString "2015-12-24T10:00:00.000Z")
               (JsArray [JsString Sample.date])) ∧
  schema_version
    (mkMetaField JsUndefined JsUndefined JsUndefined (JsArray [])
       (JsNumber 1) (JsString "2015-12-24T10:00:00.000Z")
       (JsArray [JsString Sample.date]))
  = JsNumber PROFILE_SCHEMA_VERSION.
Proof.
  split; [reflexivity|].
  apply (decoded_schema_version_is_supported Sample.date Sample.blank
           (JsObject [("schema_version", JsNumber 1);
                      ("schema_created_at", JsString "2015-12-24T10:00:00.000Z")])).
  reflexivity.
Defined.

(** ** Meta data of a merge *)

(** Claim C5.  After [updateMeta] the profile's [schema_collected_ats] is
    the previous meta's [schema_collected_ats] with [CURRENT_DATE] appended
    at the end. *)
Theorem updateMeta_appends_collected_at (CURRENT_DATE : string) (σ : Store)
    (currentProfile prevMeta : loc) (current previous : MetaField (list string)) :
  profileMetaAt σ currentProfile = Some current →
  metaValueAt σ prevMeta = Some previous →
  ∃ σ' newMeta,
    updateMeta CURRENT_DATE currentProfile prevMeta σ = Returns (currentProfile, σ') ∧
    profileMetaAt σ' currentProfile = Some newMeta ∧
    schema_collected_ats newMeta = schema_collected_ats previous ++ [CURRENT_DATE].
Proof.
  intros Hcur Hprev.
  destruct (updateMeta_snapshot CURRENT_DATE σ currentProfile prevMeta _ _ Hcur Hprev)
    as (σ' & Hrun & Hmeta & _).
  eexists σ', _. split; [exact Hrun|]. split; [exact Hmeta|]. reflexivity.
Qed.

Lemma updateMeta_appends_collected_at_witness :
  profileMetaAt Sample.store0 1%positive = Some Sample.currentMeta0 ∧
  metaValueAt Sample.store0 5%positive = Some Sample.prevMeta0 ∧
  ∃ σ' newMeta,
    updateMeta Sample.date 1%positive 5%positive Sample.store0
      = Returns (1%positive, σ') ∧
    profileMetaAt σ' 1%positive = Some newMeta ∧
    schema_collected_ats newMeta =
      schema_collected_ats Sample.prevMeta0 ++ [Sample.date].
Proof.
  split; [vm_compute; reflexivity|]. split; [vm_compute; reflexivity|].
  apply (updateMeta_appends_collected_at Sample.date Sample.store0
           1%positive 5%positive Sample.currentMeta0 Sample.prevMeta0);
    vm_compute; reflexivity.
Defined.

(** Claim C8.  After [updateMeta] the profile's [schema_created_at] is the
    previous meta's [schema_created_at]. *)
Theorem updateMeta_keeps_schema_created_at (CURRENT_DATE : string) (σ : Store)
    (currentProfile prevMeta : loc) (current previous : MetaField (list string)) :
  profileMetaAt σ currentProfile = Some current →
  metaValueAt σ prevMeta = Some previous →
  ∃ σ' newMeta,
    updateMeta CURRENT_DATE currentProfile prevMeta σ = Returns (currentProfile, σ') ∧
    profileMetaAt σ' currentProfile = Some newMeta ∧
    schema_created_at newMeta = schema_created_at previous.
Proof.
  intros Hcur Hprev.
  destruct (updateMeta_snapshot CURRENT_DATE σ currentProfile prevMeta _ _ Hcur Hprev)
    as (σ' & Hrun & Hmeta & _).
  eexists σ', _. split; [exact Hrun|]. split; [exact Hmeta|]. reflexivity.
Qed.

Lemma updateMeta_keeps_schema_created_at_witness :
  profileMetaAt Sample.store0 1%positive = Some Sample.currentMeta0 ∧
  metaValueAt Sample.store0 5%positive = Some Sample.prevMeta0 ∧
  ∃ σ' newMeta,
    updateMeta Sample.date 1%positive 5%positive Sample.store0
      = Returns (1%positive, σ') ∧
    profileMetaAt σ' 1%positive = Some newMeta ∧
    schema_created_at newMeta = schema_created_at Sample.prevMeta0.
Proof.
  split; [vm_compute; reflexivity|]. split; [vm_compute; reflexivity|].
  apply (updateMeta_keeps_schema_created_at Sample.date Sample.store0
           1%positive 5%positive Sample.currentMeta0 Sample.prevMeta0);
    vm_compute; reflexivity.
Defined.

(** Claim C9, as the code has it.  [updateMeta] leaves the previous
    [MetaField] as it was: the object keeps its fields and references, its
    [schema_collected_ats] and [ignored_repositories] arrays keep their
    contents, and no object of the store other than the current profile is
    changed.  The current profile is updated in place: the object that was
    passed is returned, with the new [MetaField] as its [_$meta]. *)
Theorem updateMeta_leaves_previous_meta (CURRENT_DATE : string) (σ : Store)
    (currentProfile prevMeta : loc) (current previous : MetaField (list string)) :
  profileMetaAt σ currentProfile = Some current →
  metaValueAt σ prevMeta = Some previous →
  ∃ σ',
    updateMeta CURRENT_DATE currentProfile prevMeta σ = Returns (currentProfile, σ') ∧
    σ' !! prevMeta = σ !! prevMeta ∧
    metaValueAt σ' prevMeta = Some previous ∧
    (∀ l, is_Some (σ !! l) → l ≠ currentProfile → σ' !! l = σ !! l) ∧
    profileMetaAt σ' currentProfile =
      Some (mkMetaField (agent previous) (github_user previous)
              (github_repository previous)
              (union (ignored_repositories current) (ignored_repositories previous))
              (schema_version previous) (schema_created_at previous)
              (schema_collected_ats previous ++ [CURRENT_DATE])).
Proof.
  intros Hcur Hprev.
  destruct (updateMeta_snapshot CURRENT_DATE σ currentProfile prevMeta _ _ Hcur Hprev)
    as (σ' & Hrun & Hnew & Hframe).
  exists σ'. split; [exact Hrun|].
  apply profileMetaAt_inv in Hcur as (cur & Hcur & _).
  apply metaValueAt_inv in Hprev as (pm & Hpm & Hpi & Hpc & Hv).
  assert (∀ l c, σ !! l = Some c → (∀ p, c ≠ ProfileObject p) → σ' !! l = Some c)
    as Hkeep.
  { intros l c Hl Hc. rewrite Hframe; [exact Hl | eauto |].
    intros ->. rewrite Hcur in Hl. injection Hl as <-. exact (Hc cur eq_refl). }
  split; [|split; [|split; [exact Hframe | exact Hnew]]].
  - rewrite Hpm. apply Hkeep; [exact Hpm | discriminate].
  - rewrite Hv. apply (metaValueAt_intro σ' prevMeta pm);
      (apply Hkeep; [assumption | discriminate]).
Qed.

Lemma updateMeta_leaves_previous_meta_witness :
  profileMetaAt Sample.store0 1%positive = Some Sample.currentMeta0 ∧
  metaValueAt Sample.store0 5%positive = Some Sample.prevMeta0 ∧
  ∃ σ',
    updateMeta Sample.date 1%positive 5%positive Sample.store0
      = Returns (1%positive, σ') ∧
    σ' !! 5%positive = Sample.store0 !! 5%positive ∧
    metaValueAt σ' 5%positive = Some Sample.prevMeta0 ∧
    (∀ l, is_Some (Sample.store0 !! l) → l ≠ 1%positive →
          σ' !! l = Sample.store0 !! l) ∧
    profileMetaAt σ' 1%positive =
      Some (mkMetaField (agent Sample.prevMeta0) (github_user Sample.prevMeta0)
              (github_repository Sample.prevMeta0)
              (union (ignored_repositories Sample.currentMeta0)
                 (ignored_repositories Sample.prevMeta0))
              (schema_version Sample.prevMeta0) (schema_created_at Sample.prevMeta0)
              (schema_collected_ats Sample.prevMeta0 ++ [Sample.date])).
Proof.
  split; [vm_compute; reflexivity|]. split; [vm_compute; reflexivity|].
  apply (updateMeta_leaves_previous_meta Sample.date Sample.store0
           1%positive 5%positive Sample.currentMeta0 Sample.prevMeta0);
    vm_compute; reflexivity.
Defined.

(** Claim C9, as stated, fails: the merge is not a pure function of its
    inputs.  The current profile at 1 is one of them, and after [updateMeta]
    that object is another: its [_$meta], which read as [currentMeta0], is a
    new object that reads as the merged meta. *)
Lemma updateMeta_changes_current_profile :
  ∃ σ',
    updateMeta Sample.date 1%positive 5%positive Sample.store0
      = Returns (1%positive, σ') ∧
    profileMetaAt Sample.store0 1%positive = Some Sample.currentMeta0 ∧
    profileMetaAt σ' 1%positive =
      Some (mkMetaField (JsString "oh-my-github") (JsString "octocat")
              (JsString "octocat/resume") ["repoB"; "repoA"] (JsNumber 1)
              (JsString "2020-01-01T00:00:00Z")
              ["2020-01-01T00:00:00Z"; Sample.date]) ∧
    σ' !! 1%positive ≠ Sample.store0 !! 1%positive ∧
    ¬ (∀ σ currentProfile prevMeta σ'',
         updateMeta Sample.date currentProfile prevMeta σ
           = Returns (currentProfile, σ'') →
         ∀ l, is_Some (σ !! l) → σ'' !! l = σ !! l).
Proof.
  assert (∃ σ',
            updateMeta Sample.date 1%positive 5%positive Sample.store0
              = Returns (1%positive, σ') ∧
            profileMetaAt σ' 1%positive =
              Some (mkMetaField (JsString "oh-my-github") (JsString "octocat")
                      (JsString "octocat/resume") ["repoB"; "repoA"] (JsNumber 1)
                      (JsString "2020-01-01T00:00:00Z")
                      ["2020-01-01T00:00:00Z"; Sample.date]) ∧
            σ' !! 1%positive ≠ Sample.store0 !! 1%positive)
    as (σ' & Hrun & Hnew & Hchanged).
  { eexists. split; [vm_compute; reflexivity|].
    split; [vm_compute; reflexivity | vm_compute; discriminate]. }
  exists σ'. split; [exact Hrun|]. split; [vm_compute; reflexivity|].
  split; [exact Hnew|]. split; [exact Hchanged|].
  intros H. apply Hchanged. apply (H _ _ _ _ Hrun).
  vm_compute. eauto.
Qed.

(** Claim C6.  [createProfile] puts the requested ignore list into the meta
    of the current profile and hands that profile to [updateMeta].  After
    [updateMeta] the profile's [ignored_repositories] is the lodash union of
    that list and the previous meta's [ignored_repositories]: as a set the
    union of the two, without repetition; so the ignore set after a merge
    contains the ignore set before it. *)
Theorem updateMeta_unites_ignored_repositories (CURRENT_DATE : string)
    (σ : Store) (currentProfile prevMeta : loc)
    (current previous : MetaField (list string)) :
  profileMetaAt σ currentProfile = Some current →
  metaValueAt σ prevMeta = Some previous →
  ∃ σ' newMeta,
    updateMeta CURRENT_DATE currentProfile prevMeta σ = Returns (currentProfile, σ') ∧
    profileMetaAt σ' currentProfile = Some newMeta ∧
    ignored_repositories newMeta =
      union (ignored_repositories current) (ignored_repositories previous) ∧
    list_to_set (ignored_repositories newMeta) =@{gset string}
      list_to_set (ignored_repositories current)
        ∪ list_to_set (ignored_repositories previous) ∧
    NoDup (ignored_repositories newMeta) ∧
    list_to_set (ignored_repositories previous) ⊆@{gset string}
      list_to_set (ignored_repositories newMeta).
Proof.
  intros Hcur Hprev.
  destruct (updateMeta_snapshot CURRENT_DATE σ currentProfile prevMeta _ _ Hcur Hprev)
    as (σ' & Hrun & Hmeta & _).
  eexists σ', _. split; [exact Hrun|]. split; [exact Hmeta|]. simpl.
  split; [reflexivity|]. split; [|split].
  - apply set_eq. intros r.
    rewrite elem_of_union, !elem_of_list_to_set. apply union_elem.
  - apply union_NoDup.
  - intros r. rewrite !elem_of_list_to_set, union_elem. auto.
Qed.

Lemma updateMeta_unites_ignored_repositories_witness :
  profileMetaAt Sample.store0 1%positive = Some Sample.currentMeta0 ∧
  metaValueAt Sample.store0 5%positive = Some Sample.prevMeta0 ∧
  ∃ σ' newMeta,
    updateMeta Sample.date 1%positive 5%positive Sample.store0
      = Returns (1%positive, σ') ∧
    profileMetaAt σ' 1%positive = Some newMeta ∧
    ignored_repositories newMeta =
      union (ignored_repositories Sample.currentMeta0)
        (ignored_repositories Sample.prevMeta0) ∧
    list_to_set (ignored_repositories newMeta) =@{gset string}
      list_to_set (ignored_repositories Sample.currentMeta0)
        ∪ list_to_set (ignored_repositories Sample.prevMeta0) ∧
    NoDup (ignored_repositories newMeta) ∧
    list_to_set (ignored_repositories Sample.prevMeta0) ⊆@{gset string}
      list_to_set (ignored_repositories newMeta).
Proof.
  split; [vm_compute; reflexivity|]. split; [vm_compute; reflexivity|].
  apply (updateMeta_unites_ignored_repositories Sample.date Sample.store0
           1%positive 5%positive Sample.currentMeta0 Sample.prevMeta0);
    vm_compute; reflexivity.
Defined.

(** * Further properties of the code *)

(** ** [MetaField.OnDeserialized]: how a run ends *)

Lemma getProp_not_nullish json key :
  isNullish json = false → getProp json key = Some (rawField json key).
Proof. destruct json; simpl; try discriminate; reflexivity. Qed.

Lemma getProp_nullish json key :
  isNullish json = true → getProp json key = None.
Proof. destruct json; simpl; try discriminate; reflexivity. Qed.

Lemma passesGate_spec v :
  passesGate v = true ↔ v = JsNull ∨ v = JsNumber PROFILE_SCHEMA_VERSION.
Proof.
  split; [apply passesGate_cases|]. intros [-> | ->]; reflexivity.
Qed.

(** X1.  The three ways the hook can end, each with the documents that lead to
    it: a TypeError exactly for a [null] or [undefined] document, the
    schema-version error exactly when the version is neither [null] nor the
    supported number, a result in the remaining case. *)
Theorem OnDeserialized_outcome (CURRENT_DATE : string)
    (instance : MetaField JsValue) (json : JsValue) :
  let version := rawField json "schema_version" in
  let supported := version = JsNull ∨ version = JsNumber PROFILE_SCHEMA_VERSION in
  (OnDeserialized CURRENT_DATE instance json = Fails TypeError
     ↔ isNullish json = true) ∧
  (∀ v, OnDeserialized CURRENT_DATE instance json = Fails (InvalidSchemaVersion v)
     ↔ isNullish json = false ∧ v = version ∧ ¬ supported) ∧
  ((∃ m, OnDeserialized CURRENT_DATE instance json = Returns m)
     ↔ isNullish json = false ∧ supported).
Proof.
  intros version supported. unfold supported, version.
  destruct (isNullish json) eqn:Hn.
  - assert (OnDeserialized CURRENT_DATE instance json = Fails TypeError) as ->.
    { unfold OnDeserialized, read.
      rewrite (getProp_nullish _ "schema_version" Hn). reflexivity. }
    split; [tauto|]. split.
    + intros v. split; [discriminate | intros [? _]; discriminate].
    + split; [intros [m ?]; discriminate | intros [? _]; discriminate].
  - pose proof (getProp_not_nullish json "schema_version" Hn) as Hv.
    destruct (passesGate (rawField json "schema_version")) eqn:Hg.
    + pose proof (proj1 (passesGate_spec _) Hg) as Hs.
      destruct (OnDeserialized_accepts CURRENT_DATE instance json _ Hv Hg) as [m ->].
      split; [split; discriminate|]. split.
      * intros v. split; [discriminate | intros (_ & _ & H); exfalso; exact (H Hs)].
      * split; [intros _; split; [reflexivity | exact Hs] | eauto].
    + assert (¬ (rawField json "schema_version" = JsNull
                 ∨ rawField json "schema_version" = JsNumber PROFILE_SCHEMA_VERSION))
        as Hns.
      { intros Hs. apply passesGate_spec in Hs. congruence. }
      rewrite (OnDeserialized_rejects CURRENT_DATE instance json _ Hv Hg).
      split; [split; discriminate|]. split.
      * intros v. split.
        -- intros [= <-]. split; [reflexivity|]. split; [reflexivity | exact Hns].
        -- intros (_ & -> & _). reflexivity.
      * split; [intros [m ?]; discriminate | intros [_ Hs]; exfalso; exact (Hns Hs)].
Qed.

(** X2.  The hook assigns [schema_version], [schema_created_at] and
    [schema_collected_ats] and no other field of the instance. *)
Theorem OnDeserialized_keeps_other_fields (CURRENT_DATE : string)
    (instance : MetaField JsValue) (json : JsValue) (m : MetaField JsValue) :
  OnDeserialized CURRENT_DATE instance json = Returns m →
  agent m = agent instance ∧
  github_user m = github_user instance ∧
  github_repository m = github_repository instance ∧
  ignored_repositories m = ignored_repositories instance.
Proof.
  intros H. apply OnDeserialized_returns in H as [_ ->]. simpl. auto.
Qed.

Lemma OnDeserialized_keeps_other_fields_witness :
  OnDeserialized Sample.date Sample.blank Sample.metaNulls =
    Returns (mkMetaField JsUndefined JsUndefined JsUndefined (JsArray [])
               (JsNumber 1) (JsString Sample.date) (JsArray [JsString Sample.date])) ∧
  let m := mkMetaField JsUndefined JsUndefined JsUndefined (JsArray [])
             (JsNumber 1) (JsString Sample.date) (JsArray [JsString Sample.date]) in
  agent m = agent Sample.blank ∧
  github_user m = github_user Sample.blank ∧
  github_repository m = github_repository Sample.blank ∧
  ignored_repositories m = ignored_repositories Sample.blank.
Proof.
  split; [reflexivity|].
  apply (OnDeserialized_keeps_other_fields Sample.date Sample.blank Sample.metaNulls).
  reflexivity.
Defined.

(** X3.  Decoding is stable: a document that carries the three schema fields of a
    decoded [MetaField] decodes, at any later date, to the same three
    fields.  In particular the creation date and the collection log written
    by one run are not replaced by the defaults of the next. *)
Theorem OnDeserialized_stable (CURRENT_DATE LATER_DATE : string)
    (instance instance' : MetaField JsValue) (json json' : JsValue)
    (m : MetaField JsValue) :
  CURRENT_DATE ≠ "" →
  OnDeserialized CURRENT_DATE instance json = Returns m →
  rawField json' "schema_version" = schema_version m →
  rawField json' "schema_created_at" = schema_created_at m →
  rawField json' "schema_collected_ats" = schema_collected_ats m →
  ∃ m', OnDeserialized LATER_DATE instance' json' = Returns m' ∧
        schema_version m' = schema_version m ∧
        schema_created_at m' = schema_created_at m ∧
        schema_collected_ats m' = schema_collected_ats m.
Proof.
  intros Hdate Hm Hv Hc Hcs.
  apply OnDeserialized_returns in Hm as [_ ->]. simpl in *.
  assert (isNullish json' = false) as Hn.
  { destruct json'; try reflexivity; discriminate Hv. }
  pose proof (getProp_not_nullish json' "schema_version" Hn) as Hget.
  assert (passesGate (rawField json' "schema_version") = true) as Hg
    by (rewrite Hv; reflexivity).
  destruct (OnDeserialized_accepts LATER_DATE instance' json' _ Hget Hg) as [m' Hm'].
  exists m'. split; [exact Hm'|].
  apply OnDeserialized_returns in Hm' as [_ ->]. simpl.
  split; [reflexivity|].
  rewrite Hc, Hcs. split.
  - destruct (isEmpty (rawField json "schema_created_at")) eqn:He.
    + simpl. destruct (String.eqb_spec CURRENT_DATE ""); [contradiction | reflexivity].
    + rewrite He. reflexivity.
  - destruct (isEmpty (rawField json "schema_collected_ats")) eqn:He.
    + reflexivity.
    + rewrite He. reflexivity.
Qed.

Lemma OnDeserialized_stable_witness :
  Sample.date ≠ "" ∧
  OnDeserialized Sample.date Sample.blank Sample.metaNulls =
    Returns (mkMetaField JsUndefined JsUndefined JsUndefined (JsArray [])
               (JsNumber 1) (JsString Sample.date) (JsArray [JsString Sample.date])) ∧
  ∃ m', OnDeserialized "2016-04-01T09:00:00.000Z" Sample.blank
          (JsObject [("schema_version", JsNumber 1);
                     ("schema_created_at", JsString Sample.date);
                     ("schema_collected_ats", JsArray [JsString Sample.date])])
        = Returns m' ∧
        schema_version m' = JsNumber 1 ∧
        schema_created_at m' = JsString Sample.date ∧
        schema_collected_ats m' = JsArray [JsString Sample.date].
Proof.
  split; [discriminate|]. split; [reflexivity|].
  apply (OnDeserialized_stable Sample.date "2016-04-01T09:00:00.000Z"
           Sample.blank Sample.blank Sample.metaNulls
           (JsObject [("schema_version", JsNumber 1);
                      ("schema_created_at", JsString Sample.date);
                      ("schema_collected_ats", JsArray [JsString Sample.date])])
           (mkMetaField JsUndefined JsUndefined JsUndefined (JsArray [])
              (JsNumber 1) (JsString Sample.date) (JsArray [JsString Sample.date])));
    [discriminate | reflexivity ..].
Defined.

(** ** The activity merge: repeated runs, order and size *)

Lemma mergeActivities_merged_is_clean (A B : list JsValue) :
  Forall (λ a, isEmpty a = false)
    (keepFirstOccurrences (filter (λ a, isEmpty a = false) (A ++ B))) ∧
  NoDup (eventIdOf <$>
           keepFirstOccurrences (filter (λ a, isEmpty a = false) (A ++ B))).
Proof. apply (mergeActivities_normalised A B), mergeActivities_returns. Qed.

Lemma keepFirstFrom_subset earlier l a :
  a ∈ keepFirstFrom earlier l → a ∈ l.
Proof. intros H. apply keepFirstFrom_elem in H. tauto. Qed.

(** X4.  Synchronising again with the same fetched events changes nothing: for
    event ids that are not objects or arrays, the merge of a batch with the
    result of merging that batch is that result. *)
Theorem mergeActivities_absorbs_same_batch (A B : list JsValue) :
  Forall (λ a, isPrimitive (eventIdOf a) = true) A →
  Forall (λ a, isPrimitive (eventIdOf a) = true) B →
  ∃ merged,
    mergeActivities A B = Returns merged ∧
    mergeActivities A merged = Returns merged.
Proof.
  intros _ _.
  exists (keepFirstOccurrences (filter (λ a, isEmpty a = false) (A ++ B))).
  split; [apply mergeActivities_returns|].
  destruct (mergeActivities_merged_is_clean A B) as [Hne Hnd].
  rewrite mergeActivities_returns. f_equal.
  rewrite (filter_app _ A), (filter_nonEmpty_id _ Hne).
  rewrite (filter_app _ A B).
  set (A' := filter (λ a : JsValue, isEmpty a = false) A).
  set (B' := filter (λ a : JsValue, isEmpty a = false) B).
  unfold keepFirstOccurrences.
  rewrite (keepFirstFrom_app [] A' B'). simpl.
  rewrite (keepFirstFrom_app [] A'). simpl. f_equal.
  rewrite keepFirstFrom_app.
  rewrite (keepFirstFrom_seen A' (keepFirstFrom [] A')).
  - simpl. apply keepFirstFrom_distinct; [apply keepFirstFrom_NoDup|].
    intros a Ha. apply keepFirstFrom_elem in Ha as [_ Ha].
    rewrite fmap_app, elem_of_app. intros [H | H]; [exact (Ha H)|].
    apply Ha. apply list_elem_of_fmap in H as (x & -> & Hx).
    apply list_elem_of_fmap_2, (keepFirstFrom_subset [] A'), Hx.
  - intros a Ha. apply list_elem_of_fmap_2, (keepFirstFrom_subset [] A'), Ha.
Qed.

Lemma mergeActivities_absorbs_same_batch_witness :
  Forall (λ a, isPrimitive (eventIdOf a) = true) Sample.freshActs ∧
  Forall (λ a, isPrimitive (eventIdOf a) = true) Sample.prevActs ∧
  ∃ merged,
    mergeActivities Sample.freshActs Sample.prevActs = Returns merged ∧
    mergeActivities Sample.freshActs merged = Returns merged.
Proof.
  split; [repeat constructor|]. split; [repeat constructor|].
  apply (mergeActivities_absorbs_same_batch Sample.freshActs Sample.prevActs);
    repeat constructor.
Defined.

(** X5.  A run that fetches no activity leaves a merged activity list exactly as it
    was, and so does merging a merged list into an empty profile. *)
Theorem mergeActivities_nothing_new (A B : list JsValue) :
  ∃ merged,
    mergeActivities A B = Returns merged ∧
    mergeActivities [] merged = Returns merged ∧
    mergeActivities merged [] = Returns merged.
Proof.
  exists (keepFirstOccurrences (filter (λ a, isEmpty a = false) (A ++ B))).
  split; [apply mergeActivities_returns|].
  destruct (mergeActivities_merged_is_clean A B) as [Hne Hnd].
  assert (∀ M, Forall (λ a, isEmpty a = false) M → NoDup (eventIdOf <$> M) →
               keepFirstOccurrences (filter (λ a, isEmpty a = false) M) = M) as Hfix.
  { intros M HM HMd. rewrite (filter_nonEmpty_id _ HM).
    apply keepFirstFrom_distinct; [exact HMd|].
    intros a _ H. simpl in H. apply elem_of_nil in H. exact H. }
  split; rewrite mergeActivities_returns; f_equal.
  - simpl. apply Hfix; assumption.
  - rewrite app_nil_r. apply Hfix; assumption.
Qed.

(** X6.  For event ids that are not objects or arrays, the output has one entry
    for each distinct event id of the entries that are not empty, and never
    more entries than the two inputs together. *)
Theorem mergeActivities_length (A B : list JsValue) :
  Forall (λ a, isPrimitive (eventIdOf a) = true) A →
  Forall (λ a, isPrimitive (eventIdOf a) = true) B →
  ∃ merged : list JsValue,
    mergeActivities A B = Returns merged ∧
    List.length merged =
      List.length
        (remove_dups (eventIdOf <$> filter (λ a, isEmpty a = false) (A ++ B))) ∧
    (List.length merged ≤ List.length A + List.length B)%nat.
Proof.
  intros _ _.
  exists (keepFirstOccurrences (filter (λ a, isEmpty a = false) (A ++ B))).
  split; [apply mergeActivities_returns|].
  set (L := filter (λ a : JsValue, isEmpty a = false) (A ++ B)).
  split.
  - rewrite <- (length_fmap eventIdOf (keepFirstOccurrences L)).
    apply Permutation_length, NoDup_Permutation.
    + apply keepFirstFrom_NoDup.
    + apply NoDup_remove_dups.
    + intros id. rewrite elem_of_remove_dups. split.
      * intros H. apply list_elem_of_fmap in H as (a & -> & Ha).
        apply list_elem_of_fmap_2, (keepFirstFrom_subset [] L), Ha.
      * intros H. apply list_elem_of_fmap in H as (a & -> & Ha).
        destruct (keepFirstFrom_covers [] L a Ha) as [H | H]; [|exact H].
        simpl in H. apply elem_of_nil in H. contradiction.
  - rewrite <- length_app.
    transitivity (length L).
    + apply sublist_length, keepFirstFrom_sublist.
    + apply sublist_length, sublist_filter.
Qed.

Lemma mergeActivities_length_witness :
  Forall (λ a, isPrimitive (eventIdOf a) = true) Sample.freshActs ∧
  Forall (λ a, isPrimitive (eventIdOf a) = true) Sample.prevActs ∧
  ∃ merged : list JsValue,
    mergeActivities Sample.freshActs Sample.prevActs = Returns merged ∧
    List.length merged =
      List.length
        (remove_dups (eventIdOf <$> filter (λ a, isEmpty a = false)
                                      (Sample.freshActs ++ Sample.prevActs))) ∧
    (List.length merged
       ≤ List.length Sample.freshActs + List.length Sample.prevActs)%nat.
Proof.
  split; [repeat constructor|]. split; [repeat constructor|].
  apply (mergeActivities_length Sample.freshActs Sample.prevActs);
    repeat constructor.
Defined.

(** X7.  Fresh entries come first: for event ids that are not objects or
    arrays, the output is the deduplicated fresh batch followed by those
    previous entries whose event id the fresh batch does not have, in the
    order they had. *)
Theorem mergeActivities_fresh_first (A B : list JsValue) :
  Forall (λ a, isPrimitive (eventIdOf a) = true) A →
  Forall (λ a, isPrimitive (eventIdOf a) = true) B →
  ∃ merged kept,
    mergeActivities A B = Returns merged ∧
    merged = keepFirstOccurrences (filter (λ a, isEmpty a = false) A) ++ kept ∧
    kept `sublist_of` B ∧
    (∀ b, b ∈ kept →
          eventIdOf b ∉ eventIdOf <$> filter (λ a, isEmpty a = false) A) ∧
    (∀ b, b ∈ B → isEmpty b = false →
          eventIdOf b ∉ eventIdOf <$> filter (λ a, isEmpty a = false) A →
          eventIdOf b ∈ eventIdOf <$> kept).
Proof.
  intros _ _.
  set (A' := filter (λ a : JsValue, isEmpty a = false) A).
  set (B' := filter (λ a : JsValue, isEmpty a = false) B).
  exists (keepFirstOccurrences (filter (λ a, isEmpty a = false) (A ++ B))),
         (keepFirstFrom A' B').
  split; [apply mergeActivities_returns|].
  split.
  { rewrite filter_app. unfold keepFirstOccurrences.
    rewrite keepFirstFrom_app. reflexivity. }
  split.
  { transitivity B'; [apply keepFirstFrom_sublist | apply sublist_filter]. }
  split.
  - intros b Hb. apply keepFirstFrom_elem in Hb. tauto.
  - intros b Hb Hne Hnew.
    destruct (keepFirstFrom_covers A' B' b) as [H | H]; [|contradiction|exact H].
    apply list_elem_of_filter. auto.
Qed.

Lemma mergeActivities_fresh_first_witness :
  Forall (λ a, isPrimitive (eventIdOf a) = true) Sample.freshActs ∧
  Forall (λ a, isPrimitive (eventIdOf a) = true) Sample.prevActs ∧
  ∃ merged kept,
    mergeActivities Sample.freshActs Sample.prevActs = Returns merged ∧
    merged =
      keepFirstOccurrences (filter (λ a, isEmpty a = false) Sample.freshActs)
        ++ kept ∧
    kept `sublist_of` Sample.prevActs ∧
    (∀ b, b ∈ kept →
          eventIdOf b ∉
            eventIdOf <$> filter (λ a, isEmpty a = false) Sample.freshActs) ∧
    (∀ b, b ∈ Sample.prevActs → isEmpty b = false →
          eventIdOf b ∉
            eventIdOf <$> filter (λ a, isEmpty a = false) Sample.freshActs →
          eventIdOf b ∈ eventIdOf <$> kept).
Proof.
  split; [repeat constructor|]. split; [repeat constructor|].
  apply (mergeActivities_fresh_first Sample.freshActs Sample.prevActs);
    repeat constructor.
Defined.

(** ** The store: what [updateMeta] changes *)

Section StoreMore.

Variable CURRENT_DATE : string.

Implicit Types (σ : Store) (l : loc).

Lemma profileAt_inv σ l p :
  profileAt σ l = Some p → σ !! l = Some (ProfileObject p).
Proof.
  unfold profileAt. destruct (σ !! l) as [[| | q]|]; try discriminate.
  intros [= ->]. reflexivity.
Qed.

Lemma profileAt_intro σ l p :
  σ !! l = Some (ProfileObject p) → profileAt σ l = Some p.
Proof. unfold profileAt. intros ->. reflexivity. Qed.

(** [updateMeta] with the profile object in view. *)
Lemma updateMeta_snapshot_profile σ currentProfile prevMeta cur current previous :
  profileAt σ currentProfile = Some cur →
  metaValueAt σ (_meta cur) = Some current →
  metaValueAt σ prevMeta = Some previous →
  ∃ σ' lm,
    updateMeta CURRENT_DATE currentProfile prevMeta σ = Returns (currentProfile, σ') ∧
    profileAt σ' currentProfile = Some (set_meta cur lm) ∧
    metaValueAt σ' lm =
      Some (mkMetaField (agent previous) (github_user previous)
              (github_repository previous)
              (union (ignored_repositories current) (ignored_repositories previous))
              (schema_version previous) (schema_created_at previous)
              (schema_collected_ats previous ++ [CURRENT_DATE])) ∧
    (∀ l, is_Some (σ !! l) → l ≠ currentProfile → σ' !! l = σ !! l).
Proof.
  intros Hcur Hcm Hprev.
  apply profileAt_inv in Hcur.
  apply metaValueAt_inv in Hcm as (cm & Hcm & Hreq & _ & _).
  apply metaValueAt_inv in Hprev as (pm & Hpm & Hpi & Hpc & Hv).
  destruct (updateMeta_run CURRENT_DATE σ currentProfile prevMeta cur cm _ pm _ _
              Hcur Hcm Hreq Hpm Hpi Hpc)
    as (σ' & lm & lu & lc & Hrun & H1 & H2 & H3 & H4 & Hframe).
  exists σ', lm. split; [exact Hrun|].
  split; [apply profileAt_intro, H1|].
  split; [|exact Hframe].
  rewrite (metaValueAt_intro _ _ _ _ _ H2 H3 H4). simpl.
  rewrite Hv. reflexivity.
Qed.

End StoreMore.

(** X8.  [updateMeta] replaces the [_$meta] of the current profile and leaves its
    [user], [languages], [repositories] and [activities] as they were. *)
Theorem updateMeta_replaces_only_meta (CURRENT_DATE : string) (σ : Store)
    (currentProfile prevMeta : loc) (cur : Profile)
    (current previous : MetaField (list string)) :
  profileAt σ currentProfile = Some cur →
  metaValueAt σ (_meta cur) = Some current →
  metaValueAt σ prevMeta = Some previous →
  ∃ σ' cur',
    updateMeta CURRENT_DATE currentProfile prevMeta σ = Returns (currentProfile, σ') ∧
    profileAt σ' currentProfile = Some cur' ∧
    user cur' = user cur ∧
    languages cur' = languages cur ∧
    repositories cur' = repositories cur ∧
    activities cur' = activities cur.
Proof.
  intros Hcur Hcm Hprev.
  destruct (updateMeta_snapshot_profile CURRENT_DATE σ currentProfile prevMeta
              cur current previous Hcur Hcm Hprev)
    as (σ' & lm & Hrun & Hprof & _ & _).
  exists σ', (set_meta cur lm). split; [exact Hrun|]. split; [exact Hprof|].
  simpl. auto.
Qed.

Lemma updateMeta_replaces_only_meta_witness :
  profileAt Sample.store0 8%positive =
    Some (mkProfile 5 JsUndefined JsUndefined JsUndefined Sample.prevActs) ∧
  metaValueAt Sample.store0 5%positive = Some Sample.prevMeta0 ∧
  metaValueAt Sample.store0 2%positive = Some Sample.currentMeta0 ∧
  ∃ σ' cur',
    updateMeta Sample.date 8%positive 2%positive Sample.store0
      = Returns (8%positive, σ') ∧
    profileAt σ' 8%positive = Some cur' ∧
    user cur' = JsUndefined ∧
    languages cur' = JsUndefined ∧
    repositories cur' = JsUndefined ∧
    activities cur' = Sample.prevActs.
Proof.
  split; [vm_compute; reflexivity|]. split; [vm_compute; reflexivity|].
  split; [vm_compute; reflexivity|].
  apply (updateMeta_replaces_only_meta Sample.date Sample.store0 8%positive 2%positive
           (mkProfile 5 JsUndefined JsUndefined JsUndefined Sample.prevActs)
           Sample.prevMeta0 Sample.currentMeta0);
    vm_compute; reflexivity.
Defined.

(** X9.  The meta that [updateMeta] gives the profile takes [agent],
    [github_user], [github_repository] and [schema_version] from the
    previous meta: what the meta of the current profile held in these
    fields, the defaults of a new [MetaField], is not kept. *)
Theorem updateMeta_takes_identity_from_previous (CURRENT_DATE : string)
    (σ : Store) (currentProfile prevMeta : loc)
    (current previous : MetaField (list string)) :
  profileMetaAt σ currentProfile = Some current →
  metaValueAt σ prevMeta = Some previous →
  ∃ σ' newMeta,
    updateMeta CURRENT_DATE currentProfile prevMeta σ = Returns (currentProfile, σ') ∧
    profileMetaAt σ' currentProfile = Some newMeta ∧
    agent newMeta = agent previous ∧
    github_user newMeta = github_user previous ∧
    github_repository newMeta = github_repository previous ∧
    schema_version newMeta = schema_version previous.
Proof.
  intros Hcur Hprev.
  destruct (updateMeta_snapshot CURRENT_DATE σ currentProfile prevMeta _ _ Hcur Hprev)
    as (σ' & Hrun & Hmeta & _).
  eexists σ', _. split; [exact Hrun|]. split; [exact Hmeta|].
  simpl. auto.
Qed.

Lemma updateMeta_takes_identity_from_previous_witness :
  profileMetaAt Sample.store0 1%positive = Some Sample.currentMeta0 ∧
  metaValueAt Sample.store0 5%positive = Some Sample.prevMeta0 ∧
  ∃ σ' newMeta,
    updateMeta Sample.date 1%positive 5%positive Sample.store0
      = Returns (1%positive, σ') ∧
    profileMetaAt σ' 1%positive = Some newMeta ∧
    agent newMeta = agent Sample.prevMeta0 ∧
    github_user newMeta = github_user Sample.prevMeta0 ∧
    github_repository newMeta = github_repository Sample.prevMeta0 ∧
    schema_version newMeta = schema_version Sample.prevMeta0.
Proof.
  split; [vm_compute; reflexivity|]. split; [vm_compute; reflexivity|].
  apply (updateMeta_takes_identity_from_previous Sample.date Sample.store0
           1%positive 5%positive Sample.currentMeta0 Sample.prevMeta0);
    vm_compute; reflexivity.
Defined.

(** X11.  Two calls of [updateMeta] in a row, the second on another profile and
    with the meta that the first call made as the previous one: the
    collection log gains the date of each call in order, the creation date
    is still the original one, and the ignore set is the union of the lists
    of both profiles and the original list. *)
Theorem updateMeta_twice (DATE1 DATE2 : string) (σ : Store)
    (profile1 profile2 prevMeta : loc) (cur1 : Profile)
    (current1 current2 previous : MetaField (list string)) :
  profileAt σ profile1 = Some cur1 →
  metaValueAt σ (_meta cur1) = Some current1 →
  profileMetaAt σ profile2 = Some current2 →
  profile1 ≠ profile2 →
  metaValueAt σ prevMeta = Some previous →
  ∃ σ1 meta1 σ2 newMeta,
    updateMeta DATE1 profile1 prevMeta σ = Returns (profile1, σ1) ∧
    _meta <$> profileAt σ1 profile1 = Some meta1 ∧
    updateMeta DATE2 profile2 meta1 σ1 = Returns (profile2, σ2) ∧
    profileMetaAt σ2 profile2 = Some newMeta ∧
    schema_collected_ats newMeta = schema_collected_ats previous ++ [DATE1; DATE2] ∧
    schema_created_at newMeta = schema_created_at previous ∧
    ∀ r, r ∈ ignored_repositories newMeta ↔
         r ∈ ignored_repositories current2 ∨
         r ∈ ignored_repositories current1 ∨
         r ∈ ignored_repositories previous.
Proof.
  intros Hcur1 Hcm1 Hcur2 Hne Hprev.
  destruct (updateMeta_snapshot_profile DATE1 σ profile1 prevMeta cur1 current1
              previous Hcur1 Hcm1 Hprev)
    as (σ1 & lm & Hrun1 & Hprof1 & Hmeta1 & Hframe1).
  assert (profileMetaAt σ1 profile2 = Some current2) as Hcur2'.
  { apply profileAt_inv in Hcur1.
    apply profileMetaAt_inv in Hcur2 as (cur2 & Hc2 & Hv2).
    apply metaValueAt_inv in Hv2 as (cm & Hcm & Hi & Hc & Hv).
    assert (∀ l c, σ !! l = Some c → (∀ p, c ≠ ProfileObject p) → σ1 !! l = Some c)
      as Hkeep.
    { intros l c Hl Hc'. rewrite Hframe1; [exact Hl | eauto |].
      intros ->. rewrite Hcur1 in Hl. injection Hl as <-. exact (Hc' cur1 eq_refl). }
    rewrite (profileMetaAt_intro σ1 profile2 cur2).
    - rewrite Hv. apply (metaValueAt_intro σ1 (_meta cur2) cm);
        (apply Hkeep; [assumption | discriminate]).
    - rewrite Hframe1; [exact Hc2 | eauto | congruence]. }
  destruct (updateMeta_snapshot DATE2 σ1 profile2 lm _ _ Hcur2' Hmeta1)
    as (σ2 & Hrun2 & Hmeta2 & _).
  eexists σ1, lm, σ2, _.
  split; [exact Hrun1|]. split; [rewrite Hprof1; reflexivity|].
  split; [exact Hrun2|]. split; [exact Hmeta2|].
  simpl. split; [rewrite <- app_assoc; reflexivity|]. split; [reflexivity|].
  intros r. rewrite !union_elem. reflexivity.
Qed.

Lemma updateMeta_twice_witness :
  profileAt Sample.store0 1%positive =
    Some (mkProfile 2 JsUndefined JsUndefined JsUndefined []) ∧
  metaValueAt Sample.store0 2%positive = Some Sample.currentMeta0 ∧
  profileMetaAt Sample.store0 8%positive = Some Sample.prevMeta0 ∧
  1%positive ≠ 8%positive ∧
  metaValueAt Sample.store0 5%positive = Some Sample.prevMeta0 ∧
  ∃ σ1 meta1 σ2 newMeta,
    updateMeta Sample.date 1%positive 5%positive Sample.store0
      = Returns (1%positive, σ1) ∧
    _meta <$> profileAt σ1 1%positive = Some meta1 ∧
    updateMeta "2016-04-01T09:00:00.000Z" 8%positive meta1 σ1
      = Returns (8%positive, σ2) ∧
    profileMetaAt σ2 8%positive = Some newMeta ∧
    schema_collected_ats newMeta =
      schema_collected_ats Sample.prevMeta0
        ++ [Sample.date; "2016-04-01T09:00:00.000Z"] ∧
    schema_created_at newMeta = schema_created_at Sample.prevMeta0 ∧
    ∀ r, r ∈ ignored_repositories newMeta ↔
         r ∈ ignored_repositories Sample.prevMeta0 ∨
         r ∈ ignored_repositories Sample.currentMeta0 ∨
         r ∈ ignored_repositories Sample.prevMeta0.
Proof.
  split; [vm_compute; reflexivity|]. split; [vm_compute; reflexivity|].
  split; [vm_compute; reflexivity|]. split; [discriminate|].
  split; [vm_compute; reflexivity|].
  apply (updateMeta_twice Sample.date "2016-04-01T09:00:00.000Z" Sample.store0
           1%positive 8%positive 5%positive
           (mkProfile 2 JsUndefined JsUndefined JsUndefined [])
           Sample.currentMeta0 Sample.prevMeta0 Sample.prevMeta0);
    try (vm_compute; reflexivity); discriminate.
Defined.

(** ** The summaries of [printProfile] *)

Lemma langMapStep_lookup (langMap : gmap string Z) (lang : Language.t) (n : string) :
  langMapStep langMap lang !! n =
  if bool_decide (Language.name lang = n)
  then Some (Language.line lang + default 0 (langMap !! n))%Z
  else langMap !! n.
Proof.
  unfold langMapStep.
  destruct (decide (Language.name lang = n)) as [Hn | Hn].
  - rewrite (bool_decide_eq_true_2 (Language.name lang = n)) by exact Hn.
    subst n. rewrite lookup_insert_eq. f_equal. f_equal.
    case_bool_decide as Hs.
    + reflexivity.
    + rewrite lookup_insert_eq.
      destruct (langMap !! Language.name lang) eqn:E; [|reflexivity].
      exfalso. apply Hs. eauto.
  - rewrite (bool_decide_eq_false_2 (Language.name lang = n)) by exact Hn.
    rewrite lookup_insert_ne by exact Hn.
    case_bool_decide; [reflexivity|]. rewrite lookup_insert_ne by exact Hn.
    reflexivity.
Qed.

Lemma linesOf_absent (langs : list Language.t) (n : string) :
  n ∉ Language.name <$> langs → linesOf n langs = 0%Z.
Proof.
  unfold linesOf. induction langs as [|lang rest IH]; intros Hn; [reflexivity|].
  rewrite fmap_cons in Hn. apply not_elem_of_cons in Hn as [Hne Hn].
  rewrite filter_cons_False by congruence. apply IH, Hn.
Qed.

Lemma linesOf_cons (lang : Language.t) (rest : list Language.t) (n : string) :
  linesOf n (lang :: rest) =
  ((if bool_decide (Language.name lang = n) then Language.line lang else 0)
   + linesOf n rest)%Z.
Proof.
  unfold linesOf. case_bool_decide as Hn.
  - rewrite filter_cons_True by exact Hn. reflexivity.
  - rewrite filter_cons_False by exact Hn. reflexivity.
Qed.

Lemma foldl_langMapStep_lookup (langs : list Language.t) :
  ∀ (langMap : gmap string Z) (n : string),
    foldl langMapStep langMap langs !! n =
    if bool_decide (n ∈ Language.name <$> langs)
    then Some (default 0 (langMap !! n) + linesOf n langs)%Z
    else langMap !! n.
Proof.
  induction langs as [|lang rest IH]; intros langMap n.
  - rewrite bool_decide_eq_false_2 by (simpl; apply not_elem_of_nil). reflexivity.
  - simpl foldl. rewrite IH, langMapStep_lookup, linesOf_cons, fmap_cons.
    destruct (decide (Language.name lang = n)) as [Hn | Hn].
    + rewrite (bool_decide_eq_true_2 (Language.name lang = n)) by exact Hn.
      rewrite (bool_decide_eq_true_2 (n ∈ _ :: _)) by (apply elem_of_cons; auto).
      case_bool_decide as Hr; simpl.
      * f_equal. lia.
      * rewrite (linesOf_absent rest n Hr). f_equal. lia.
    + rewrite (bool_decide_eq_false_2 (Language.name lang = n)) by exact Hn.
      destruct (decide (n ∈ Language.name <$> rest)) as [Hr | Hr].
      * rewrite (bool_decide_eq_true_2 _ Hr).
        rewrite (bool_decide_eq_true_2 (n ∈ _ :: _)) by (apply elem_of_cons; auto).
        f_equal.
      * rewrite (bool_decide_eq_false_2 _ Hr).
        rewrite (bool_decide_eq_false_2 (n ∈ _ :: _)); [reflexivity|].
        rewrite elem_of_cons. intros [H | H]; [congruence | exact (Hr H)].
Qed.

Lemma linesOf_bounds (langs : list Language.t) (n : string) :
  Forall (λ lang, (0 ≤ Language.line lang)%Z) langs →
  (0 ≤ linesOf n langs ≤ sumZ (Language.line <$> langs))%Z.
Proof.
  induction 1 as [|lang rest Hl _ IH].
  - unfold linesOf, sumZ. simpl. lia.
  - rewrite linesOf_cons, fmap_cons. unfold sumZ in *. simpl foldr.
    case_bool_decide; lia.
Qed.

(** X12.  For line counts that are not negative and add up to a number within
    [MAX_SAFE_INTEGER], the language map holds, for every language name that
    occurs, the sum of the lines of all entries with that name, a number
    within that bound, and holds no other name. *)
Theorem langMapOf_lookup (langs : list Language.t) (n : string) :
  Forall (λ lang, (0 ≤ Language.line lang)%Z) langs →
  (sumZ (Language.line <$> langs) ≤ MAX_SAFE_INTEGER)%Z →
  langMapOf langs !! n =
    (if bool_decide (n ∈ Language.name <$> langs)
     then Some (linesOf n langs) else None) ∧
  safeCount (linesOf n langs).
Proof.
  intros Hlines Htotal. split.
  - unfold langMapOf. rewrite foldl_langMapStep_lookup, lookup_empty. simpl.
    case_bool_decide; reflexivity.
  - pose proof (linesOf_bounds langs n Hlines). unfold safeCount. lia.
Qed.

Lemma langMapOf_lookup_witness :
  Forall (λ lang, (0 ≤ Language.line lang)%Z) SampleMore.langs ∧
  (sumZ (Language.line <$> SampleMore.langs) ≤ MAX_SAFE_INTEGER)%Z ∧
  langMapOf SampleMore.langs !! "CSS" =
    (if bool_decide ("CSS" ∈ Language.name <$> SampleMore.langs)
     then Some (linesOf "CSS" SampleMore.langs) else None) ∧
  safeCount (linesOf "CSS" SampleMore.langs).
Proof.
  assert (Forall (λ lang, (0 ≤ Language.line lang)%Z) SampleMore.langs) as H1.
  { repeat constructor; discriminate. }
  assert (sumZ (Language.line <$> SampleMore.langs) ≤ MAX_SAFE_INTEGER)%Z as H2.
  { vm_compute. discriminate. }
  split; [exact H1|]. split; [exact H2|].
  apply (langMapOf_lookup SampleMore.langs "CSS" H1 H2).
Defined.

Lemma summarize_app (sum : RepositorySummary.t) (repos1 repos2 : list Repository.t) :
  summarize sum (repos1 ++ repos2) = summarize (summarize sum repos1) repos2.
Proof. apply foldl_app. Qed.

Lemma sumZ_fmap_nonneg {A : Type} (f : A → Z) (l : list A) :
  Forall (λ x, (0 ≤ f x)%Z) l → (0 ≤ sumZ (f <$> l))%Z.
Proof.
  induction 1 as [|x l Hx _ IH]; [unfold sumZ; simpl; lia|].
  rewrite fmap_cons. unfold sumZ in *. simpl foldr. lia.
Qed.

(** The summary after the reduction, in closed form. *)
Lemma summarize_equation (sum : RepositorySummary.t) (repos : list Repository.t) :
  summarize sum repos =
  RepositorySummary.mk
    (RepositorySummary.repository_names sum ++ (Repository.name <$> repos))
    (RepositorySummary.repository_count sum + Z.of_nat (List.length repos))
    (RepositorySummary.watchers_count sum
       + sumZ (Repository.watchers_count <$> repos))
    (RepositorySummary.stargazers_count sum
       + sumZ (Repository.stargazers_count <$> repos))
    (RepositorySummary.forks_count sum + sumZ (Repository.forks_count <$> repos)).
Proof.
  revert sum. induction repos as [|repo rest IH]; intros sum.
  - destruct sum. unfold summarize, sumZ. simpl.
    rewrite app_nil_r, !Z.add_0_r. reflexivity.
  - unfold summarize in *. simpl foldl. rewrite IH.
    unfold addRepository, sumZ. rewrite !fmap_cons. simpl foldr.
    change (List.length (repo :: rest)) with (S (List.length rest)).
    rewrite Nat2Z.inj_succ. simpl.
    rewrite <- app_assoc. simpl. f_equal; lia.
Qed.

(** X13.  For counters that are not negative and totals within
    [MAX_SAFE_INTEGER], the repository summary counts every repository once,
    lists the names in order and totals the three counters, on top of what
    the summary held at the start; the totals are within the bound. *)
Theorem summarize_totals (sum : RepositorySummary.t) (repos : list Repository.t) :
  safeTotals sum repos →
  summarize sum repos =
    RepositorySummary.mk
      (RepositorySummary.repository_names sum ++ (Repository.name <$> repos))
      (RepositorySummary.repository_count sum + Z.of_nat (List.length repos))
      (RepositorySummary.watchers_count sum
         + sumZ (Repository.watchers_count <$> repos))
      (RepositorySummary.stargazers_count sum
         + sumZ (Repository.stargazers_count <$> repos))
      (RepositorySummary.forks_count sum + sumZ (Repository.forks_count <$> repos)) ∧
  safeCount (RepositorySummary.repository_count (summarize sum repos)) ∧
  safeCount (RepositorySummary.watchers_count (summarize sum repos)) ∧
  safeCount (RepositorySummary.stargazers_count (summarize sum repos)) ∧
  safeCount (RepositorySummary.forks_count (summarize sum repos)).
Proof.
  intros (Hc & Hw & Hs & Hf & Hrepos & Hcs & Hws & Hss & Hfs).
  pose proof (summarize_equation sum repos) as Heq.
  split; [exact Heq|]. rewrite Heq. simpl. unfold safeCount.
  pose proof (sumZ_fmap_nonneg Repository.watchers_count repos
                (Forall_impl _ _ _ Hrepos (λ _ H, proj1 H))).
  pose proof (sumZ_fmap_nonneg Repository.stargazers_count repos
                (Forall_impl _ _ _ Hrepos (λ _ H, proj1 (proj2 H)))).
  pose proof (sumZ_fmap_nonneg Repository.forks_count repos
                (Forall_impl _ _ _ Hrepos (λ _ H, proj2 (proj2 H)))).
  lia.
Qed.

Lemma summarize_totals_witness :
  safeTotals SampleMore.emptySummary SampleMore.repos ∧
  summarize SampleMore.emptySummary SampleMore.repos =
    RepositorySummary.mk
      (RepositorySummary.repository_names SampleMore.emptySummary
         ++ (Repository.name <$> SampleMore.repos))
      (RepositorySummary.repository_count SampleMore.emptySummary
         + Z.of_nat (List.length SampleMore.repos))
      (RepositorySummary.watchers_count SampleMore.emptySummary
         + sumZ (Repository.watchers_count <$> SampleMore.repos))
      (RepositorySummary.stargazers_count SampleMore.emptySummary
         + sumZ (Repository.stargazers_count <$> SampleMore.repos))
      (RepositorySummary.forks_count SampleMore.emptySummary
         + sumZ (Repository.forks_count <$> SampleMore.repos)) ∧
  safeCount (RepositorySummary.repository_count
               (summarize SampleMore.emptySummary SampleMore.repos)) ∧
  safeCount (RepositorySummary.watchers_count
               (summarize SampleMore.emptySummary SampleMore.repos)) ∧
  safeCount (RepositorySummary.stargazers_count
               (summarize SampleMore.emptySummary SampleMore.repos)) ∧
  safeCount (RepositorySummary.forks_count
               (summarize SampleMore.emptySummary SampleMore.repos)).
Proof.
  assert (safeTotals SampleMore.emptySummary SampleMore.repos) as H.
  { unfold safeTotals.
    repeat (split; [vm_compute; discriminate|]).
    split; [repeat constructor; discriminate|].
    repeat split; vm_compute; discriminate. }
  split; [exact H|].
  apply (summarize_totals SampleMore.emptySummary SampleMore.repos H).
Defined.

Lemma foldl_set_add_elem (names : list JsValue) :
  ∀ (acc : list JsValue) (x : JsValue),
    x ∈ foldl set_add acc names ↔ x ∈ acc ∨ x ∈ names.
Proof.
  induction names as [|n rest IH]; intros acc x; simpl.
  - rewrite elem_of_nil. tauto.
  - rewrite IH, elem_of_cons. unfold set_add.
    destruct (set_has acc n) eqn:Hn.
    + apply set_has_elem_of in Hn. split; [tauto|].
      intros [H | [-> | H]]; auto.
    + rewrite elem_of_app, list_elem_of_singleton. tauto.
Qed.

Lemma foldl_set_add_NoDup (names : list JsValue) :
  ∀ acc : list JsValue, NoDup acc → NoDup (foldl set_add acc names).
Proof.
  induction names as [|n rest IH]; intros acc Hnd; simpl; [exact Hnd|].
  apply IH. unfold set_add. destruct (set_has acc n) eqn:Hn; [exact Hnd|].
  apply NoDup_app. split; [exact Hnd|]. split; [|apply NoDup_singleton].
  intros x Hx Hx'. apply list_elem_of_singleton in Hx'. subst x.
  apply set_has_elem_of in Hx. congruence.
Qed.

Lemma read_not_nullish (v : JsValue) (key : string) :
  isNullish v = false → read v key = Returns (rawField v key).
Proof. intros H. unfold read. rewrite (getProp_not_nullish _ _ H). reflexivity. Qed.

Lemma namesOf_returns (items : list JsValue) :
  Forall (λ lang, isNullish lang = false) items →
  namesOf items = Returns ((λ lang, rawField lang "name") <$> items).
Proof.
  induction 1 as [|lang rest Hl _ IH]; [reflexivity|].
  simpl. rewrite (read_not_nullish _ _ Hl). simpl. rewrite IH. reflexivity.
Qed.

Lemma langSetStep_returns (acc : list JsValue) (langInfo : JsValue) :
  readableLangInfo langInfo →
  ∃ acc',
    langSetStep acc langInfo = Returns acc' ∧
    (NoDup acc → NoDup acc') ∧
    ∀ n, n ∈ acc' ↔
         n ∈ acc ∨
         ∃ items lang, rawField langInfo "languages" = JsArray items ∧
                       lang ∈ items ∧ n = rawField lang "name".
Proof.
  intros [Hnn Hwf]. unfold langSetStep.
  rewrite (read_not_nullish _ _ Hnn). simpl.
  destruct (isEmpty (rawField langInfo "languages")
            || strictEqNumber (lengthOf (rawField langInfo "languages")) 0) eqn:Hskip.
  - exists acc. split; [reflexivity|]. split; [auto|].
    intros n. split; [auto|]. intros [H | (items & lang & Hitems & Hin & _)]; [exact H|].
    rewrite Hitems in Hskip. destruct items as [|x items].
    + apply elem_of_nil in Hin. contradiction.
    + simpl in Hskip. discriminate.
  - destruct Hwf as [Hwf | (items & Hitems & Hall)]; [congruence|].
    rewrite Hitems.
    rewrite (namesOf_returns _ (Forall_impl _ _ _ Hall (λ _ H, proj1 H))). simpl.
    eexists. split; [reflexivity|]. split; [apply foldl_set_add_NoDup|].
    intros n. rewrite foldl_set_add_elem, list_elem_of_fmap. split.
    + intros [H | (lang & -> & Hin)]; [auto|]. right. eauto.
    + intros [H | (items' & lang & [= <-] & Hin & ->)]; [auto|]. right. eauto.
Qed.

Lemma langSetLoop_returns (langInfos : list JsValue) :
  ∀ acc : list JsValue,
    Forall readableLangInfo langInfos →
    ∃ langSet,
      langSetLoop langInfos acc = Returns langSet ∧
      (NoDup acc → NoDup langSet) ∧
      ∀ n, n ∈ langSet ↔
           n ∈ acc ∨
           ∃ langInfo items lang,
             langInfo ∈ langInfos ∧
             rawField langInfo "languages" = JsArray items ∧
             lang ∈ items ∧ n = rawField lang "name".
Proof.
  induction langInfos as [|langInfo rest IH]; intros acc Hall.
  - exists acc. split; [reflexivity|]. split; [auto|].
    intros n. split; [auto|]. intros [H | (i & _ & _ & H & _)]; [exact H|].
    apply elem_of_nil in H. contradiction.
  - apply Forall_cons in Hall as [Hi Hrest].
    destruct (langSetStep_returns acc langInfo Hi) as (acc' & Hstep & Hnd & Hin).
    destruct (IH acc' Hrest) as (langSet & Hloop & Hnd' & Hin').
    exists langSet. simpl. rewrite Hstep. simpl. split; [exact Hloop|].
    split; [auto|].
    intros n. rewrite Hin', Hin. split.
    + intros [[H | (items & lang & H1 & H2 & H3)] | (i & items & lang & H0 & H1 & H2 & H3)].
      * auto.
      * right. exists langInfo, items, lang. rewrite elem_of_cons. auto.
      * right. exists i, items, lang. rewrite elem_of_cons. auto.
    + intros [H | (i & items & lang & H0 & H1 & H2 & H3)]; [auto|].
      apply elem_of_cons in H0 as [-> | H0].
      * left. right. eauto.
      * right. eauto 10.
Qed.

(** X14.  The language set of [printProfile]: for records that are objects whose
    [languages] is absent, empty or an array of objects with names that are
    not objects or arrays, the reduction returns the set, without
    repetition, of the names of all listed languages; a record without
    languages adds nothing and does not stop the run. *)
Theorem langSetOf_names (langInfos : list JsValue) :
  Forall readableLangInfo langInfos →
  ∃ langSet,
    langSetOf langInfos = Returns langSet ∧
    NoDup langSet ∧
    ∀ n, n ∈ langSet ↔
         ∃ langInfo items lang,
           langInfo ∈ langInfos ∧
           rawField langInfo "languages" = JsArray items ∧
           lang ∈ items ∧ n = rawField lang "name".
Proof.
  intros Hall.
  destruct (langSetLoop_returns langInfos [] Hall) as (langSet & Hrun & Hnd & Hin).
  exists langSet. split; [exact Hrun|]. split; [apply Hnd; constructor|].
  intros n. rewrite Hin, elem_of_nil. tauto.
Qed.

(** ** The new activities of [printProfile] *)

Lemma eventIdOf_rawField (a : JsValue) : eventIdOf a = rawField a "event_id".
Proof. reflexivity. Qed.

Lemma eventIdsOf_returns (acts : list JsValue) :
  Forall (λ a, isNullish a = false) acts →
  eventIdsOf acts = Returns (eventIdOf <$> acts).
Proof.
  induction 1 as [|a rest Ha _ IH]; [reflexivity|].
  simpl. rewrite (read_not_nullish _ _ Ha). simpl. rewrite IH. reflexivity.
Qed.

Lemma filterNew_returns (prevActIds currentActs : list JsValue) :
  Forall (λ a, isNullish a = false) currentActs →
  filterNew prevActIds currentActs =
  Returns (filter (λ a, eventIdOf a ∉ prevActIds) currentActs).
Proof.
  induction 1 as [|a rest Ha _ IH]; [reflexivity|].
  simpl. rewrite (read_not_nullish _ _ Ha). simpl. rewrite IH. simpl.
  change (rawField a "event_id") with (eventIdOf a).
  destruct (set_has prevActIds (eventIdOf a)) eqn:Hhas; simpl.
  - apply set_has_elem_of in Hhas.
    rewrite filter_cons_False by (intros H; exact (H Hhas)). reflexivity.
  - rewrite filter_cons_True; [reflexivity|].
    intros Hin. apply set_has_elem_of in Hin. congruence.
Qed.

Lemma newActivities_returns (prevActs currentActs : list JsValue) :
  Forall (λ a, isNullish a = false) prevActs →
  Forall (λ a, isNullish a = false) currentActs →
  newActivities prevActs currentActs =
  Returns (filter (λ a, eventIdOf a ∉ eventIdOf <$> prevActs) currentActs).
Proof.
  intros Hp Hc. unfold newActivities.
  rewrite (eventIdsOf_returns _ Hp). simpl.
  rewrite (filterNew_returns _ _ Hc). f_equal.
  apply list_filter_iff. intros a.
  rewrite foldl_set_add_elem, elem_of_nil. tauto.
Qed.

(** X15.  For event ids that are not objects or arrays: when the current
    activities hold every previous event id, and neither list holds an id
    twice, the new activities are as many as the current list is longer
    than the previous one; so the details of the new activities are printed
    exactly when there is a new activity. *)
Theorem newActivities_count (prevActs currentActs : list JsValue) :
  Forall (λ a, isNullish a = false) prevActs →
  Forall (λ a, isNullish a = false) currentActs →
  Forall (λ a, isPrimitive (eventIdOf a) = true) prevActs →
  Forall (λ a, isPrimitive (eventIdOf a) = true) currentActs →
  NoDup (eventIdOf <$> prevActs) →
  NoDup (eventIdOf <$> currentActs) →
  (∀ p, p ∈ prevActs → eventIdOf p ∈ eventIdOf <$> currentActs) →
  ∃ newActs : list JsValue,
    newActivities prevActs currentActs = Returns newActs ∧
    (∀ a, a ∈ newActs ↔ a ∈ currentActs ∧ eventIdOf a ∉ eventIdOf <$> prevActs) ∧
    List.length currentActs = (List.length prevActs + List.length newActs)%nat ∧
    (printsNewActivityDetails prevActs currentActs = true ↔ newActs ≠ []).
Proof.
  intros Hp Hc _ _ Hndp Hndc Hsub.
  set (isOld := λ a : JsValue, eventIdOf a ∈ eventIdOf <$> prevActs).
  exists (filter (λ a, ¬ isOld a) currentActs).
  split; [apply newActivities_returns; assumption|].
  split.
  { intros a. rewrite list_elem_of_filter. unfold isOld. tauto. }
  assert (List.length (filter isOld currentActs) = List.length prevActs) as Hold.
  { rewrite <- (length_fmap eventIdOf (filter isOld currentActs)).
    rewrite <- (length_fmap eventIdOf prevActs).
    apply Permutation_length, NoDup_Permutation.
    - apply (sublist_NoDup _ (eventIdOf <$> currentActs)); [exact Hndc|].
      apply fmap_sublist, sublist_filter.
    - exact Hndp.
    - intros id. rewrite !list_elem_of_fmap. split.
      + intros (a & -> & Ha). apply list_elem_of_filter in Ha as [Ha _].
        apply list_elem_of_fmap in Ha. exact Ha.
      + intros (p & -> & Hpin).
        destruct (proj1 (list_elem_of_fmap _ _ _) (Hsub p Hpin)) as (a & Heq & Ha).
        exists a. split; [exact Heq|]. apply list_elem_of_filter. split; [|exact Ha].
        unfold isOld. rewrite <- Heq. apply list_elem_of_fmap_2, Hpin. }
  assert (List.length currentActs =
          (List.length prevActs + List.length (filter (λ a, ¬ isOld a) currentActs))%nat)
    as Hlen.
  { rewrite <- Hold, <- length_app.
    symmetry. apply Permutation_length, filter_app_complement. }
  split; [exact Hlen|].
  unfold printsNewActivityDetails. rewrite negb_true_iff, Nat.eqb_neq.
  destruct (filter (λ a, ¬ isOld a) currentActs) as [|x news].
  - simpl in Hlen. split; [lia | congruence].
  - simpl in Hlen. split; [discriminate | lia].
Qed.

(** ** The [profile] command *)

Section CommandFacts.

Variable getGithubUser : string → string → Command.Promise JsValue.
Variable getUserRepositories : string → string → Command.Promise (list Repository.t).
Variable getUserLanguages : string → string → Command.Promise (list Language.t).
Variable getUserActivities : string → string → Command.Promise (list JsValue).
Variable newRepositorySummary : RepositorySummary.t.

Let printProfile := Command.printProfile newRepositorySummary.
Let createProfile :=
  Command.createProfile getGithubUser getUserRepositories getUserLanguages
    getUserActivities newRepositorySummary.

Lemma printProfile_cases (user : JsValue) (langs : list Language.t)
    (repos : list Repository.t) (acts : list JsValue) :
  (langs ≠ [] ∧ isNullish user = true ∧
   printProfile user langs repos acts = Fails TypeError) ∨
  ((langs = [] ∨ isNullish user = false) ∧
   ∃ out, printProfile user langs repos acts = Returns out).
Proof.
  unfold printProfile, Command.printProfile.
  destruct langs as [|lang langs].
  - right. split; [auto|]. simpl. eauto.
  - destruct (isNullish user) eqn:Hn.
    + left. split; [discriminate|]. split; [reflexivity|].
      unfold read. rewrite (getProp_nullish _ _ Hn). reflexivity.
    + right. split; [auto|].
      rewrite (read_not_nullish _ _ Hn). simpl. eauto.
Qed.

Lemma createProfile_resolved (token user : string)
    (options : Command.ProfileOptions) (p : Command.Profile) :
  createProfile token user options = Command.Resolved p ↔
  ∃ githubUser repos langs acts,
    getGithubUser token user = Command.Resolved githubUser ∧
    (if Command.repository options then getUserRepositories token user
     else Command.Resolved []) = Command.Resolved repos ∧
    (if Command.language options then getUserLanguages token user
     else Command.Resolved []) = Command.Resolved langs ∧
    (if Command.activity options then getUserActivities token user
     else Command.Resolved []) = Command.Resolved acts ∧
    (langs = [] ∨ isNullish githubUser = false) ∧
    p = Command.mkProfile githubUser langs repos acts.
Proof.
  unfold createProfile, Command.createProfile.
  destruct (getGithubUser token user) as [githubUser|r]; simpl;
    [|split; [discriminate | intros (? & ? & ? & ? & ? & _); discriminate]].
  destruct (if Command.repository options then getUserRepositories token user
            else Command.Resolved []) as [repos|r]; simpl;
    [|split; [discriminate | intros (? & ? & ? & ? & _ & ? & _); discriminate]].
  destruct (if Command.language options then getUserLanguages token user
            else Command.Resolved []) as [langs|r]; simpl;
    [|split; [discriminate | intros (? & ? & ? & ? & _ & _ & ? & _); discriminate]].
  destruct (if Command.activity options then getUserActivities token user
            else Command.Resolved []) as [acts|r]; simpl;
    [|split; [discriminate | intros (? & ? & ? & ? & _ & _ & _ & ? & _); discriminate]].
  fold printProfile.
  destruct (printProfile_cases githubUser langs repos acts)
    as [(Hl & Hn & ->) | (Hok & out & ->)].
  - split; [discriminate|].
    intros (u & rs & ls & as_ & [= <-] & [= <-] & [= <-] & [= <-] & [H | H] & _);
      congruence.
  - split.
    + intros [= <-]. exists githubUser, repos, langs, acts. auto 10.
    + intros (u & rs & ls & as_ & [= <-] & [= <-] & [= <-] & [= <-] & _ & ->).
      reflexivity.
Qed.


(** X18.  A synchronisation loses no stored event: for stored and fetched
    events with ids that are not objects or arrays, when the file is
    overwritten, the event id of every stored entry that is not empty is
    among the written activities, which hold no id twice; and a field whose
    flag is off is written empty, the activities being then the stored
    ones, deduplicated. *)
Theorem COMMAND_PROFILE_keeps_history (token user : string)
    (options : Command.ProfileOptions) (prevActs : list JsValue)
    (p : Command.Profile) :
  Forall (λ a, isPrimitive (eventIdOf a) = true) prevActs →
  (∀ acts, getUserActivities token user = Command.Resolved acts →
           Forall (λ a, isPrimitive (eventIdOf a) = true) acts) →
  Command.COMMAND_PROFILE getGithubUser getUserRepositories getUserLanguages
    getUserActivities newRepositorySummary token user options prevActs
  = Command.Overwrites p →
  (∀ b, b ∈ prevActs → isEmpty b = false →
        eventIdOf b ∈ eventIdOf <$> Command.activities p) ∧
  NoDup (eventIdOf <$> Command.activities p) ∧
  (Command.repository options = false → Command.repositories p = []) ∧
  (Command.language options = false → Command.languages p = []) ∧
  (Command.activity options = false →
   Command.activities p =
     keepFirstOccurrences (filter (λ a, isEmpty a = false) prevActs)).
Proof.
  intros _ _.
  unfold Command.COMMAND_PROFILE. fold createProfile.
  destruct (createProfile token user options) as [cur|r] eqn:Hc; [|discriminate].
  apply createProfile_resolved in Hc
    as (githubUser & repos & langs & acts & H1 & H2 & H3 & H4 & H5 & ->).
  simpl. rewrite mergeActivities_returns. intros [= <-].
  simpl. split; [|split; [apply keepFirstFrom_NoDup|]].
  - intros b Hb Hne.
    destruct (keepFirstFrom_covers []
                (filter (λ a, isEmpty a = false) (acts ++ prevActs)) b) as [Hc | Hc].
    + apply list_elem_of_filter. split; [exact Hne|]. apply elem_of_app. auto.
    + simpl in Hc. apply elem_of_nil in Hc. contradiction.
    + exact Hc.
  - split; [|split].
    + intros Hf. rewrite Hf in H2. congruence.
    + intros Hf. rewrite Hf in H3. congruence.
    + intros Hf. rewrite Hf in H4. injection H4 as <-. reflexivity.
Qed.

End CommandFacts.


Lemma COMMAND_PROFILE_keeps_history_witness :
  Forall (λ a, isPrimitive (eventIdOf a) = true) Sample.prevActs ∧
  (∀ acts, SampleMore.getUserActivities "token" "octocat" = Command.Resolved acts →
           Forall (λ a, isPrimitive (eventIdOf a) = true) acts) ∧
  Command.COMMAND_PROFILE SampleMore.getGithubUser SampleMore.getUserRepositories
    SampleMore.getUserLanguages SampleMore.getUserActivities SampleMore.emptySummary
    "token" "octocat" SampleMore.options Sample.prevActs
  = Command.Overwrites SampleMore.written ∧
  (∀ b, b ∈ Sample.prevActs → isEmpty b = false →
        eventIdOf b ∈ eventIdOf <$> Command.activities SampleMore.written) ∧
  NoDup (eventIdOf <$> Command.activities SampleMore.written) ∧
  (Command.repository SampleMore.options = false →
   Command.repositories SampleMore.written = []) ∧
  (Command.language SampleMore.options = false →
   Command.languages SampleMore.written = []) ∧
  (Command.activity SampleMore.options = false →
   Command.activities SampleMore.written =
     keepFirstOccurrences (filter (λ a, isEmpty a = false) Sample.prevActs)).
Proof.
  assert (Forall (λ a, isPrimitive (eventIdOf a) = true) Sample.prevActs) as H1
    by repeat constructor.
  assert (∀ acts,
            SampleMore.getUserActivities "token" "octocat" = Command.Resolved acts →
            Forall (λ a, isPrimitive (eventIdOf a) = true) acts) as H2.
  { unfold SampleMore.getUserActivities. intros acts [= <-]. repeat constructor. }
  split; [exact H1|]. split; [exact H2|].
  split; [reflexivity|].
  apply (COMMAND_PROFILE_keeps_history SampleMore.getGithubUser
           SampleMore.getUserRepositories SampleMore.getUserLanguages
           SampleMore.getUserActivities SampleMore.emptySummary "token" "octocat"
           SampleMore.options Sample.prevActs SampleMore.written H1 H2).
  reflexivity.
Defined.

(** ** The [init] command *)

Lemma lookupProp_setProp (props : list (string * JsValue)) (key key' : string)
    (v : JsValue) :
  lookupProp (Command.setProp props key v) key' =
  if String.eqb key key' then v else lookupProp props key'.
Proof.
  induction props as [|[k x] rest IH]; simpl.
  - rewrite String.eqb_sym. destruct (String.eqb key' key); reflexivity.
  - destruct (String.eqb_spec k key) as [-> | Hk]; simpl.
    + destruct (String.eqb key key'); reflexivity.
    + rewrite IH.
      destruct (String.eqb_spec k key') as [-> | Hk'];
        destruct (String.eqb_spec key key') as [-> | Hkk]; congruence.
Qed.

Lemma setRepository_object (props metaProps : list (string * JsValue)) (repo : string) :
  lookupProp props "_$meta" = JsObject metaProps →
  Command.setRepository (JsObject props) repo =
  Returns (JsObject (Command.setProp props "_$meta"
                       (JsObject (Command.setProp metaProps "repository"
                                    (JsString repo))))).
Proof.
  intros H. unfold Command.setRepository, read. simpl. rewrite H. reflexivity.
Qed.

Lemma COMMAND_INIT_run (template : JsValue) (confPath repo : string)
    (fs : Command.FileSystem) :
  Command.COMMAND_INIT template confPath repo fs =
  match Command.setRepository template repo with
  | Returns template' =>
      Returns (match fs !! confPath with
               | Some _ => fs
               | None => <[confPath := template']> fs
               end)
  | Fails f => Fails f
  end.
Proof.
  unfold Command.COMMAND_INIT, Command.writeFileIfNotExist.
  destruct (Command.setRepository template repo); simpl; [|reflexivity].
  destruct (fs !! confPath); reflexivity.
Qed.

Lemma setRepository_fails (template : JsValue) (repo : string) (f : Failure) :
  Command.setRepository template repo = Fails f → f = TypeError.
Proof.
  unfold Command.setRepository, read.
  destruct (getProp template "_$meta") as [meta|]; simpl; [|congruence].
  destruct meta; simpl; try congruence; destruct template; discriminate.
Qed.

(** X19.  [init] never changes a database file that exists: it ends with the file
    system as it was, or with the TypeError of a template without [_$meta],
    having written nothing. *)
Theorem COMMAND_INIT_keeps_existing_file (template : JsValue)
    (confPath repo : string) (fs : Command.FileSystem) :
  is_Some (fs !! confPath) →
  Command.COMMAND_INIT template confPath repo fs = Returns fs ∨
  Command.COMMAND_INIT template confPath repo fs = Fails TypeError.
Proof.
  intros [doc Hdoc]. rewrite COMMAND_INIT_run, Hdoc.
  destruct (Command.setRepository template repo) as [t|f] eqn:Hset.
  - left. reflexivity.
  - right. f_equal. exact (setRepository_fails _ _ _ Hset).
Qed.

Lemma COMMAND_INIT_keeps_existing_file_witness :
  is_Some (({[ SampleMore.confPath := JsObject [] ]} : Command.FileSystem)
             !! SampleMore.confPath) ∧
  (Command.COMMAND_INIT SampleMore.template SampleMore.confPath "octocat/resume"
     {[ SampleMore.confPath := JsObject [] ]}
   = Returns {[ SampleMore.confPath := JsObject [] ]} ∨
   Command.COMMAND_INIT SampleMore.template SampleMore.confPath "octocat/resume"
     {[ SampleMore.confPath := JsObject [] ]}
   = Fails TypeError).
Proof.
  split; [vm_compute; eauto|].
  apply (COMMAND_INIT_keeps_existing_file SampleMore.template SampleMore.confPath
           "octocat/resume" {[ SampleMore.confPath := JsObject [] ]}).
  vm_compute; eauto.
Defined.

(** X20.  Where no database file exists, [init] writes the template with
    [repository] set to the given name inside [_$meta]; every other property
    of [_$meta] and of the template is written as the template has it, and
    no other file is touched. *)
Theorem COMMAND_INIT_writes_template (props metaProps : list (string * JsValue))
    (confPath repo : string) (fs : Command.FileSystem) :
  fs !! confPath = None →
  lookupProp props "_$meta" = JsObject metaProps →
  ∃ doc,
    Command.COMMAND_INIT (JsObject props) confPath repo fs
      = Returns (<[confPath := doc]> fs) ∧
    rawField (rawField doc "_$meta") "repository" = JsString repo ∧
    (∀ key, key ≠ "repository" →
            rawField (rawField doc "_$meta") key = lookupProp metaProps key) ∧
    (∀ key, key ≠ "_$meta" → rawField doc key = lookupProp props key).
Proof.
  intros Hnone Hmeta. unfold Command.COMMAND_INIT.
  rewrite (setRepository_object props metaProps repo Hmeta). simpl.
  unfold Command.writeFileIfNotExist. rewrite Hnone.
  eexists. split; [reflexivity|].
  unfold rawField. simpl. rewrite !lookupProp_setProp. simpl.
  rewrite lookupProp_setProp. simpl. split; [reflexivity|]. split.
  - intros key Hkey. rewrite lookupProp_setProp.
    destruct (String.eqb_spec "repository" key); congruence.
  - intros key Hkey. rewrite lookupProp_setProp.
    destruct (String.eqb_spec "_$meta" key); congruence.
Qed.

Lemma COMMAND_INIT_writes_template_witness :
  (∅ : Command.FileSystem) !! "oh-my-github.json" = None ∧
  lookupProp [("_$meta", JsObject [("agent", JsString "oh-my-github")]);
              ("activities", JsArray [])] "_$meta"
    = JsObject [("agent", JsString "oh-my-github")] ∧
  ∃ doc,
    Command.COMMAND_INIT
      (JsObject [("_$meta", JsObject [("agent", JsString "oh-my-github")]);
                 ("activities", JsArray [])])
      "oh-my-github.json" "octocat/resume" ∅
      = Returns (<["oh-my-github.json" := doc]> ∅) ∧
    rawField (rawField doc "_$meta") "repository" = JsString "octocat/resume" ∧
    (∀ key, key ≠ "repository" →
            rawField (rawField doc "_$meta") key
            = lookupProp [("agent", JsString "oh-my-github")] key) ∧
    (∀ key, key ≠ "_$meta" →
            rawField doc key
            = lookupProp [("_$meta", JsObject [("agent", JsString "oh-my-github")]);
                          ("activities", JsArray [])] key).
Proof.
  split; [reflexivity|]. split; [reflexivity|].
  apply (COMMAND_INIT_writes_template
           [("_$meta", JsObject [("agent", JsString "oh-my-github")]);
            ("activities", JsArray [])]
           [("agent", JsString "oh-my-github")]
           "oh-my-github.json" "octocat/resume" ∅);
    reflexivity.
Defined.

(** X21.  [init] is idempotent: after an [init] that returned, another [init] at
    the same path, whatever its template and repository name, leaves every
    file as it is. *)
Theorem COMMAND_INIT_idempotent (template template' : JsValue)
    (confPath repo repo' : string) (fs fs1 fs2 : Command.FileSystem) :
  Command.COMMAND_INIT template confPath repo fs = Returns fs1 →
  Command.COMMAND_INIT template' confPath repo' fs1 = Returns fs2 →
  fs2 = fs1.
Proof.
  rewrite !COMMAND_INIT_run.
  destruct (Command.setRepository template repo) as [t|f]; [|discriminate].
  destruct (Command.setRepository template' repo') as [t'|f']; [|discriminate].
  intros [= <-] [= <-].
  destruct (fs !! confPath) as [doc|] eqn:E.
  - rewrite E. reflexivity.
  - rewrite lookup_insert_eq. reflexivity.
Qed.

Lemma COMMAND_INIT_idempotent_witness :
  Command.COMMAND_INIT SampleMore.template SampleMore.confPath "octocat/resume" ∅
    = Returns {[ SampleMore.confPath := SampleMore.initialised ]} ∧
  Command.COMMAND_INIT SampleMore.template SampleMore.confPath "octocat/other"
    {[ SampleMore.confPath := SampleMore.initialised ]}
    = Returns {[ SampleMore.confPath := SampleMore.initialised ]} ∧
  ({[ SampleMore.confPath := SampleMore.initialised ]} : Command.FileSystem)
    = {[ SampleMore.confPath := SampleMore.initialised ]}.
Proof.
  assert (Command.COMMAND_INIT SampleMore.template SampleMore.confPath
            "octocat/resume" ∅
          = Returns {[ SampleMore.confPath := SampleMore.initialised ]}) as H1
    by (vm_compute; reflexivity).
  assert (Command.COMMAND_INIT SampleMore.template SampleMore.confPath
            "octocat/other" {[ SampleMore.confPath := SampleMore.initialised ]}
          = Returns {[ SampleMore.confPath := SampleMore.initialised ]}) as H2
    by (vm_compute; reflexivity).
  split; [exact H1|]. split; [exact H2|].
  exact (COMMAND_INIT_idempotent SampleMore.template SampleMore.template
           SampleMore.confPath "octocat/resume" "octocat/other" ∅ _ _ H1 H2).
Defined.

(** X22.  [init] throws a TypeError, before any write, exactly when the [_$meta]
    of the template is neither an object nor an array: absent, [null] or a
    primitive. *)
Theorem COMMAND_INIT_throws_iff (template : JsValue) (confPath repo : string)
    (fs : Command.FileSystem) :
  Command.COMMAND_INIT template confPath repo fs = Fails TypeError ↔
  ¬ ((∃ metaProps, rawField template "_$meta" = JsObject metaProps) ∨
     (∃ items, rawField template "_$meta" = JsArray items)).
Proof.
  unfold Command.COMMAND_INIT, Command.setRepository, read, rawField.
  destruct (getProp template "_$meta") as [meta|] eqn:Hget; simpl.
  - destruct meta; simpl;
      try (split; [intros _ [[? ?] | [? ?]]; discriminate | reflexivity]).
    + split; [|intros H; exfalso; apply H; right; eauto].
      destruct template; simpl;
        destruct (Command.writeFileIfNotExist confPath _ fs); discriminate.
    + split; [|intros H; exfalso; apply H; left; eauto].
      destruct template; simpl;
        destruct (Command.writeFileIfNotExist confPath _ fs); discriminate.
  - split; [intros _ [[? ?] | [? ?]]; discriminate | reflexivity].
Qed.

(** ** Witnesses for the summaries *)

Lemma langSetOf_names_witness :
  Forall readableLangInfo SampleMore.langInfos ∧
  ∃ langSet,
    langSetOf SampleMore.langInfos = Returns langSet ∧
    NoDup langSet ∧
    ∀ n, n ∈ langSet ↔
         ∃ langInfo items lang,
           langInfo ∈ SampleMore.langInfos ∧
           rawField langInfo "languages" = JsArray items ∧
           lang ∈ items ∧ n = rawField lang "name".
Proof.
  assert (Forall readableLangInfo SampleMore.langInfos) as H.
  { unfold SampleMore.langInfos.
    apply Forall_cons. split.
    { split; [reflexivity|]. right. eexists. split; [reflexivity|].
      repeat (apply Forall_cons; split; [split; reflexivity|]).
      apply Forall_nil_2. }
    apply Forall_cons. split.
    { split; [reflexivity|]. left. reflexivity. }
    apply Forall_cons. split.
    { split; [reflexivity|]. right. eexists. split; [reflexivity|].
      repeat (apply Forall_cons; split; [split; reflexivity|]).
      apply Forall_nil_2. }
    apply Forall_nil_2. }
  split; [exact H|]. apply (langSetOf_names SampleMore.langInfos H).
Defined.

Lemma newActivities_count_witness :
  Forall (λ a, isNullish a = false) SampleMore.storedActs ∧
  Forall (λ a, isNullish a = false) SampleMore.mergedActs ∧
  Forall (λ a, isPrimitive (eventIdOf a) = true) SampleMore.storedActs ∧
  Forall (λ a, isPrimitive (eventIdOf a) = true) SampleMore.mergedActs ∧
  NoDup (eventIdOf <$> SampleMore.storedActs) ∧
  NoDup (eventIdOf <$> SampleMore.mergedActs) ∧
  (∀ p, p ∈ SampleMore.storedActs →
        eventIdOf p ∈ eventIdOf <$> SampleMore.mergedActs) ∧
  ∃ newActs : list JsValue,
    newActivities SampleMore.storedActs SampleMore.mergedActs = Returns newActs ∧
    (∀ a, a ∈ newActs ↔
          a ∈ SampleMore.mergedActs ∧ eventIdOf a ∉ eventIdOf <$> SampleMore.storedActs) ∧
    List.length SampleMore.mergedActs
      = (List.length SampleMore.storedActs + List.length newActs)%nat ∧
    (printsNewActivityDetails SampleMore.storedActs SampleMore.mergedActs = true
     ↔ newActs ≠ []).
Proof.
  assert (NoDup (eventIdOf <$> SampleMore.storedActs)) as H1.
  { refine (bool_decide_unpack _ _). vm_compute. exact I. }
  assert (NoDup (eventIdOf <$> SampleMore.mergedActs)) as H2.
  { refine (bool_decide_unpack _ _). vm_compute. exact I. }
  assert (∀ p, p ∈ SampleMore.storedActs →
               eventIdOf p ∈ eventIdOf <$> SampleMore.mergedActs) as H3.
  { intros p Hp. apply list_elem_of_singleton in Hp. subst p.
    refine (bool_decide_unpack _ _). vm_compute. exact I. }
  split; [repeat constructor|]. split; [repeat constructor|].
  split; [repeat constructor|]. split; [repeat constructor|].
  split; [exact H1|]. split; [exact H2|]. split; [exact H3|].
  apply (newActivities_count SampleMore.storedActs SampleMore.mergedActs);
    [repeat constructor | repeat constructor | repeat constructor
    | repeat constructor | exact H1 | exact H2 | exact H3].
Defined.
